(** * The key commands of bridge: [commands/keys.py]

    A shallow embedding of [mnemonic_to_validator_pk] and
    [generate_xch_key].  The program is a straight line of calls into
    the chia libraries; the libraries are an interface ([Library]), the
    operating system's randomness and the terminal are the state the
    program runs in ([World]).

    The two encoders the program prints with, the address encoding of
    [chia.util.bech32m] and the mnemonic of [chia.util.keychain], are
    modelled after it ([Bech32m], [Bip39]), and after them the other
    command of the file, [generate_eth_key] ([Eth]).  The definitions
    come first, then the facts: runs of the program, the claims about
    them, bit strings and [convertbits], the checksum, addresses,
    mnemonics, and more about the runs of the two commands. *)

From Stdlib Require Import Strings.String Strings.Ascii Strings.Byte List ZArith NArith Lia Bool.
From ExtLib Require Import Structures.Monad Structures.MonadState
  Structures.MonadExc Data.Monads.StateMonad Data.Monads.EitherMonad.
Import ListNotations.
Import MonadNotation.
Local Open Scope monad_scope.
Local Open Scope string_scope.
Local Open Scope Z_scope.

(** ** Data *)

(** A Python [bytes] object. *)
Definition bytes := list byte.

(** The exceptions the spec names for this flow. *)
Inductive Exn : Type :=
| RandomnessUnavailable
| InvalidMnemonic.

(** The operating system's randomness, as [secrets.token_bytes] reads
    it: either there is none, or an unbounded supply of bytes.  It is
    the source [secrets] is made for, the operating system's
    generator for cryptographic use; how good its bytes are is the
    operating system's matter and no part of the model. *)
Inductive RandSource : Type :=
| Unavailable
| Available (pool : nat -> byte).

(** What the program imports: [chia.util.keychain],
    [chia.wallet.derive_keys],
    [chia.wallet.puzzles.p2_delegated_puzzle_or_hidden_puzzle],
    [chia_rs] and [chia.util.bech32m], which are libraries, and
    [commands.config], a module of this repository that is not under
    src/ and whose [get_config_item] is taken as it is called: a
    function from a path of keys to a string.  The calls are functions
    of their arguments; [mnemonic_to_seed] is the one the spec lets
    fail ([None] is the raise of [InvalidMnemonic]).  [sk_bytes] is
    [bytes(private_key)] and [g1_str] is [str(public_key)]. *)
Record Library : Type := {
  PrivateKey : Type;
  G1Element : Type;
  bytes_to_mnemonic : bytes -> string;
  mnemonic_to_seed : string -> option bytes;
  key_gen : bytes -> PrivateKey;
  _derive_path : PrivateKey -> list Z -> PrivateKey;
  master_sk_to_wallet_sk_unhardened : PrivateKey -> Z -> PrivateKey;
  get_g1 : PrivateKey -> G1Element;
  sk_bytes : PrivateKey -> bytes;
  g1_str : G1Element -> string;
  calculate_synthetic_public_key : G1Element -> bytes -> G1Element;
  DEFAULT_HIDDEN_PUZZLE_HASH : bytes;
  puzzle_hash_for_synthetic_public_key : G1Element -> bytes;
  encode_puzzle_hash : bytes -> string -> string;
  get_config_item : list string -> string
}.

(** [bytes.hex()]: two lower-case digits per byte. *)
Definition hex_digit (n : N) : ascii :=
  match n with
  | 0 => "0" | 1 => "1" | 2 => "2" | 3 => "3" | 4 => "4" | 5 => "5"
  | 6 => "6" | 7 => "7" | 8 => "8" | 9 => "9" | 10 => "a" | 11 => "b"
  | 12 => "c" | 13 => "d" | 14 => "e" | _ => "f"
  end%N%char.

Fixpoint hex (b : bytes) : string :=
  match b with
  | [] => EmptyString
  | x :: rest =>
      let n := Byte.to_N x in
      String (hex_digit (N.div n 16)) (String (hex_digit (N.modulo n 16)) (hex rest))
  end.

Section Program.

Context (L : Library).

(** One call into a library, with the arguments it was given. *)
Inductive Event : Type :=
| Call_token_bytes (nbytes : nat)
| Call_bytes_to_mnemonic (mnemonic_bytes : bytes)
| Call_mnemonic_to_seed (mnemonic : string)
| Call_key_gen (seed : bytes)
| Call_derive_path (sk : PrivateKey L) (path : list Z)
| Call_master_sk_to_wallet_sk_unhardened (master : PrivateKey L) (index : Z)
| Call_get_g1 (sk : PrivateKey L)
| Call_calculate_synthetic_public_key (pk : G1Element L) (hidden_puzzle_hash : bytes)
| Call_puzzle_hash_for_synthetic_public_key (pk : G1Element L)
| Call_get_config_item (path : list string)
| Call_encode_puzzle_hash (puzzle_hash : bytes) (prefix : string).

(** The state a run threads: the randomness still to be drawn, the
    lines echoed so far and the library calls made so far. *)
Record World : Type := mkWorld {
  urandom : RandSource;
  stdout : list string;
  calls : list Event
}.

(** A raise leaves the world as it was when it happened: what was
    echoed before stays echoed. *)
Definition M : Type -> Type := eitherT Exn (state World).

Definition run {A} (c : M A) (w : World) : (Exn + A) * World :=
  runState (unEitherT c) w.

(** [click.echo(line)]. *)
Definition echo (line : string) : M unit :=
  modify (fun w => mkWorld (urandom w) (stdout w ++ [line]) (calls w)) ;;
  ret tt.

Definition log (e : Event) : M unit :=
  modify (fun w => mkWorld (urandom w) (stdout w) (calls w ++ [e])) ;;
  ret tt.

(** [secrets.token_bytes(nbytes)]. *)
Definition token_bytes (nbytes : nat) : M bytes :=
  log (Call_token_bytes nbytes) ;;
  w <- get ;;
  match urandom w with
  | Unavailable => raise RandomnessUnavailable
  | Available pool =>
      put (mkWorld (Available (fun i => pool (nbytes + i)%nat)) (stdout w) (calls w)) ;;
      ret (map pool (seq 0 nbytes))
  end.

(** The library calls.  A call enters the log as it is made, with the
    arguments it is given, and returns what the library returns for
    those arguments: the log cannot say one thing and the program
    compute another. *)
Definition call_bytes_to_mnemonic (mnemonic_bytes : bytes) : M string :=
  log (Call_bytes_to_mnemonic mnemonic_bytes) ;;
  ret (bytes_to_mnemonic L mnemonic_bytes).

(** [mnemonic_to_seed] is the call that may raise. *)
Definition call_mnemonic_to_seed (mnemonic : string) : M bytes :=
  log (Call_mnemonic_to_seed mnemonic) ;;
  match mnemonic_to_seed L mnemonic with
  | Some seed => ret seed
  | None => raise InvalidMnemonic
  end.

Definition call_key_gen (seed : bytes) : M (PrivateKey L) :=
  log (Call_key_gen seed) ;;
  ret (key_gen L seed).

Definition call_derive_path (sk : PrivateKey L) (path : list Z) : M (PrivateKey L) :=
  log (Call_derive_path sk path) ;;
  ret (_derive_path L sk path).

Definition call_master_sk_to_wallet_sk_unhardened (master : PrivateKey L) (index : Z)
  : M (PrivateKey L) :=
  log (Call_master_sk_to_wallet_sk_unhardened master index) ;;
  ret (master_sk_to_wallet_sk_unhardened L master index).

Definition call_get_g1 (sk : PrivateKey L) : M (G1Element L) :=
  log (Call_get_g1 sk) ;;
  ret (get_g1 L sk).

Definition call_calculate_synthetic_public_key (pk : G1Element L)
    (hidden_puzzle_hash : bytes) : M (G1Element L) :=
  log (Call_calculate_synthetic_public_key pk hidden_puzzle_hash) ;;
  ret (calculate_synthetic_public_key L pk hidden_puzzle_hash).

Definition call_puzzle_hash_for_synthetic_public_key (pk : G1Element L) : M bytes :=
  log (Call_puzzle_hash_for_synthetic_public_key pk) ;;
  ret (puzzle_hash_for_synthetic_public_key L pk).

Definition call_get_config_item (path : list string) : M string :=
  log (Call_get_config_item path) ;;
  ret (get_config_item L path).

Definition call_encode_puzzle_hash (puzzle_hash : bytes) (prefix : string) : M string :=
  log (Call_encode_puzzle_hash puzzle_hash prefix) ;;
  ret (encode_puzzle_hash L puzzle_hash prefix).

(** [mnemonic_to_validator_pk], keys.py lines 16-19. *)
Definition mnemonic_to_validator_pk (mnemonic : string) : M (PrivateKey L) :=
  seed <- call_mnemonic_to_seed mnemonic ;;
  root_key <- call_key_gen seed ;;
  call_derive_path root_key [12381; 8444; 7; 0].

(** The local variables of [generate_xch_key] when it returns;
    [private_key] holds its second assignment (line 34). *)
Record Locals : Type := mkLocals {
  entropy : bytes;
  mnemonic : string;
  private_key : PrivateKey L;
  public_key : G1Element L;
  seed : bytes;
  root_key : PrivateKey L;
  first_wallet_sk : PrivateKey L;
  first_wallet_pk : G1Element L;
  first_wallet_synthetic_key : G1Element L;
  first_puzzle_hash : bytes;
  first_address : string
}.

(** [generate_xch_key], keys.py lines 22-40.  The Python function
    returns nothing; the model hands back its frame. *)
Definition generate_xch_key : M Locals :=
  echo "Generating XCH key..." ;;
  entropy <- token_bytes 16 ;;
  mnemonic <- call_bytes_to_mnemonic entropy ;;
  echo ("Mnemonic: " ++ mnemonic) ;;
  private_key <- mnemonic_to_validator_pk mnemonic ;;
  public_key <- call_get_g1 private_key ;;
  echo ("Private Key: " ++ hex (sk_bytes L private_key)) ;;
  echo ("Public Key: " ++ g1_str L public_key) ;;
  seed <- call_mnemonic_to_seed mnemonic ;;
  root_key <- call_key_gen seed ;;
  private_key <- call_derive_path root_key [12381; 8444; 7; 0] ;;
  first_wallet_sk <- call_master_sk_to_wallet_sk_unhardened root_key 0 ;;
  first_wallet_pk <- call_get_g1 first_wallet_sk ;;
  first_wallet_synthetic_key <-
    call_calculate_synthetic_public_key first_wallet_pk (DEFAULT_HIDDEN_PUZZLE_HASH L) ;;
  first_puzzle_hash <-
    call_puzzle_hash_for_synthetic_public_key first_wallet_synthetic_key ;;
  prefix <- call_get_config_item ["xch"; "prefix"] ;;
  first_address <- call_encode_puzzle_hash first_puzzle_hash prefix ;;
  echo ("First address: " ++ first_address) ;;
  ret (mkLocals entropy mnemonic private_key public_key seed root_key
         first_wallet_sk first_wallet_pk first_wallet_synthetic_key
         first_puzzle_hash first_address).

End Program.

Arguments mkWorld {L}.
Arguments urandom {L}.
Arguments stdout {L}.
Arguments calls {L}.
Arguments run {L A}.
Arguments mkLocals {L}.
Arguments entropy {L}.
Arguments mnemonic {L}.
Arguments private_key {L}.
Arguments public_key {L}.
Arguments seed {L}.
Arguments root_key {L}.
Arguments first_wallet_sk {L}.
Arguments first_wallet_pk {L}.
Arguments first_wallet_synthetic_key {L}.
Arguments first_puzzle_hash {L}.
Arguments first_address {L}.

(** The path arguments of the derivation calls, in call order. *)
Definition derivation_paths {L} (es : list (Event L)) : list (list Z) :=
  flat_map (fun e => match e with
                     | Call_derive_path _ _ path => [path]
                     | _ => []
                     end) es.



(** What a run from [w] to [w'] has added to the call log and to the
    terminal. *)
Definition new_calls {L} (w w' : World L) : list (Event L) :=
  skipn (length (calls w)) (calls w').

Definition new_lines {L} (w w' : World L) : list string :=
  skipn (length (stdout w)) (stdout w').

(** The library [L] with another [_derive_path] in its place. *)
Definition with_derive_path (L : Library)
    (dp : PrivateKey L -> list Z -> PrivateKey L) : Library := {|
  PrivateKey := PrivateKey L;
  G1Element := G1Element L;
  bytes_to_mnemonic := bytes_to_mnemonic L;
  mnemonic_to_seed := mnemonic_to_seed L;
  key_gen := key_gen L;
  _derive_path := dp;
  master_sk_to_wallet_sk_unhardened := master_sk_to_wallet_sk_unhardened L;
  get_g1 := get_g1 L;
  sk_bytes := sk_bytes L;
  g1_str := g1_str L;
  calculate_synthetic_public_key := calculate_synthetic_public_key L;
  DEFAULT_HIDDEN_PUZZLE_HASH := DEFAULT_HIDDEN_PUZZLE_HASH L;
  puzzle_hash_for_synthetic_public_key := puzzle_hash_for_synthetic_public_key L;
  encode_puzzle_hash := encode_puzzle_hash L;
  get_config_item := get_config_item L
|}.

(** What a run that returns has done: the frame it returns, the
    lines it has echoed and the calls it has made, each in terms of
    the frame. *)
Record Returned (L : Library) (w : World L) (loc : Locals L) (w' : World L) : Prop := {
  ret_pool : exists pool,
    urandom w = Available pool /\
    entropy loc = map pool (seq 0 16) /\
    urandom w' = Available (fun i => pool (16 + i)%nat);
  ret_mnemonic : mnemonic loc = bytes_to_mnemonic L (entropy loc);
  ret_seed : mnemonic_to_seed L (mnemonic loc) = Some (seed loc);
  ret_root_key : root_key loc = key_gen L (seed loc);
  ret_private_key : private_key loc = _derive_path L (root_key loc) [12381; 8444; 7; 0];
  ret_public_key : public_key loc = get_g1 L (private_key loc);
  ret_first_wallet_sk :
    first_wallet_sk loc = master_sk_to_wallet_sk_unhardened L (root_key loc) 0;
  ret_first_wallet_pk : first_wallet_pk loc = get_g1 L (first_wallet_sk loc);
  ret_first_wallet_synthetic_key :
    first_wallet_synthetic_key loc =
      calculate_synthetic_public_key L (first_wallet_pk loc)
        (DEFAULT_HIDDEN_PUZZLE_HASH L);
  ret_first_puzzle_hash :
    first_puzzle_hash loc =
      puzzle_hash_for_synthetic_public_key L (first_wallet_synthetic_key loc);
  ret_first_address :
    first_address loc =
      encode_puzzle_hash L (first_puzzle_hash loc)
        (get_config_item L ["xch"; "prefix"]);
  ret_stdout :
    stdout w' =
      (stdout w ++
       ["Generating XCH key...";
        ("Mnemonic: " ++ mnemonic loc)%string;
        ("Private Key: " ++ hex (sk_bytes L (private_key loc)))%string;
        ("Public Key: " ++ g1_str L (public_key loc))%string;
        ("First address: " ++ first_address loc)%string])%list;
  ret_calls :
    calls w' = (calls w ++
      [Call_token_bytes L 16;
       Call_bytes_to_mnemonic L (entropy loc);
       Call_mnemonic_to_seed L (mnemonic loc);
       Call_key_gen L (seed loc);
       Call_derive_path L (root_key loc) [12381; 8444; 7; 0];
       Call_get_g1 L (private_key loc);
       Call_mnemonic_to_seed L (mnemonic loc);
       Call_key_gen L (seed loc);
       Call_derive_path L (root_key loc) [12381; 8444; 7; 0];
       Call_master_sk_to_wallet_sk_unhardened L (root_key loc) 0;
       Call_get_g1 L (first_wallet_sk loc);
       Call_calculate_synthetic_public_key L (first_wallet_pk loc)
         (DEFAULT_HIDDEN_PUZZLE_HASH L);
       Call_puzzle_hash_for_synthetic_public_key L (first_wallet_synthetic_key loc);
       Call_get_config_item L ["xch"; "prefix"];
       Call_encode_puzzle_hash L (first_puzzle_hash loc)
         (get_config_item L ["xch"; "prefix"])])%list
}.

(** ** A small library to run the program on *)

Module Toy.

(** Keys are byte strings; each derivation leaves its mark on the
    key, so that different derivations give different keys. *)
Definition lib : Library := {|
  PrivateKey := bytes;
  G1Element := bytes;
  bytes_to_mnemonic := fun b => hex (firstn 2 b);
  mnemonic_to_seed := fun m =>
    match m with
    | EmptyString => None
    | String c _ => Some [byte_of_ascii c]
    end;
  key_gen := fun s => (x01%byte :: s);
  _derive_path := fun sk path => (sk ++ [xaa%byte])%list;
  master_sk_to_wallet_sk_unhardened := fun sk index => (sk ++ [xbb%byte])%list;
  get_g1 := fun sk => xcc%byte :: sk;
  sk_bytes := fun sk => sk;
  g1_str := fun pk => "<G1Element " ++ hex pk ++ ">";
  calculate_synthetic_public_key := fun pk h => (pk ++ h)%list;
  DEFAULT_HIDDEN_PUZZLE_HASH := [x71%byte; x1d%byte];
  puzzle_hash_for_synthetic_public_key := fun pk => rev pk;
  encode_puzzle_hash := fun h prefix => prefix ++ "1" ++ hex h;
  get_config_item := fun path => hd "" path
|}.

(** The same library with a derivation that leaves the key alone. *)
Definition lib' : Library := with_derive_path lib (fun sk path => sk).

(** A world with randomness and nothing printed yet, and one with a
    line on the terminal already. *)
Definition world : World lib :=
  mkWorld (Available (fun i => Byte.x2a)) [] [].

Definition world' : World lib' :=
  mkWorld (Available (fun i => Byte.x2a)) ["$ bridge keys generate-xch-key"] [].

(** A world without randomness. *)
Definition dry : World lib := mkWorld Unavailable [] [].

Definition no_frame (L : Library) (sk : PrivateKey L) (pk : G1Element L) : Locals L :=
  mkLocals [] "" sk pk [] sk sk pk pk [] "".

(** The frames and worlds the two runs end in. *)
Definition frame : Locals lib :=
  Eval vm_compute in
    match fst (run (generate_xch_key lib) world) with
    | inr loc => loc
    | inl _ => no_frame lib [] []
    end.

Definition after : World lib :=
  Eval vm_compute in snd (run (generate_xch_key lib) world).

Definition frame' : Locals lib' :=
  Eval vm_compute in
    match fst (run (generate_xch_key lib') world') with
    | inr loc => loc
    | inl _ => no_frame lib' [] []
    end.

Definition after' : World lib' :=
  Eval vm_compute in snd (run (generate_xch_key lib') world').

Definition after_dry : World lib :=
  Eval vm_compute in snd (run (generate_xch_key lib) dry).

End Toy.

(** ** Addresses: [chia.util.bech32m] *)

Module Bech32m.

(** Modelled from the spec: [chia.util.bech32m] is imported by
    keys.py and is not under src/.  The spec names the encoding
    (bech32m, "a checksummed, human-readable binary-to-text encoding",
    "prefix + bech32m-encoded payload"); the definitions below follow
    the functions of that module, which are the reference
    implementation of the standard, function by function.  A Python
    [str] is a [string] of characters below 256, a list of ints a
    [list Z], a raise or a [None] result is [None]. *)
Definition CHARSET : string := "qpzry9x8gf2tvdw0s3jn54khce6mua7l".

Definition M : Z := 0x2bc830a3.

Definition generator : list Z :=
  [0x3b6a57b2; 0x26508e6d; 0x1ea119fa; 0x3d4233dd; 0x2a1462b3].

(** Python's [ord]. *)
Definition ord (c : ascii) : Z := Z.of_N (N_of_ascii c).

(** One turn of the loop of [bech32_polymod]. *)
Definition polymod_round (chk value : Z) : Z :=
  let top := Z.shiftr chk 25 in
  let chk := Z.lxor (Z.shiftl (Z.land chk 0x1ffffff) 5) value in
  fold_left
    (fun chk i =>
       Z.lxor chk
         (if Z.land (Z.shiftr top (Z.of_nat i)) 1 =? 0 then 0
          else nth i generator 0))
    (seq 0 5) chk.

Definition bech32_polymod (values : list Z) : Z :=
  fold_left polymod_round values 1.

Definition bech32_hrp_expand (hrp : string) : list Z :=
  (map (fun x => Z.shiftr (ord x) 5) (list_ascii_of_string hrp)
   ++ [0]
   ++ map (fun x => Z.land (ord x) 31) (list_ascii_of_string hrp))%list.

Definition bech32_verify_checksum (hrp : string) (data : list Z) : bool :=
  bech32_polymod (bech32_hrp_expand hrp ++ data)%list =? M.

Definition bech32_create_checksum (hrp : string) (data : list Z) : list Z :=
  let values := (bech32_hrp_expand hrp ++ data)%list in
  let polymod := Z.lxor (bech32_polymod (values ++ [0; 0; 0; 0; 0; 0])%list) M in
  map (fun i => Z.land (Z.shiftr polymod (5 * (5 - Z.of_nat i))) 31) (seq 0 6).

(** [CHARSET[d]]: an index from [-32] up counts from the end, anything
    else outside [0, 32) raises. *)
Definition charset_at (d : Z) : option ascii :=
  if (0 <=? d) && (d <? 32) then
    nth_error (list_ascii_of_string CHARSET) (Z.to_nat d)
  else if (-32 <=? d) && (d <? 0) then
    nth_error (list_ascii_of_string CHARSET) (Z.to_nat (32 + d))
  else None.

Fixpoint charset_chars (ds : list Z) : option (list ascii) :=
  match ds with
  | [] => Some []
  | d :: rest =>
      match charset_at d, charset_chars rest with
      | Some c, Some cs => Some (c :: cs)
      | _, _ => None
      end
  end%list.

Definition bech32_encode (hrp : string) (data : list Z) : option string :=
  let combined := (data ++ bech32_create_checksum hrp data)%list in
  match charset_chars combined with
  | Some cs => Some (hrp ++ "1" ++ string_of_list_ascii cs)
  | None => None
  end.

(** [CHARSET.find(x)] for a character [x]: its index, or [-1]. *)
Fixpoint find_from (x : ascii) (l : list ascii) (i : Z) : Z :=
  match l with
  | [] => -1
  | c :: rest => if Ascii.eqb c x then i else find_from x rest (i + 1)
  end%list.

Definition charset_find (x : ascii) : Z :=
  find_from x (list_ascii_of_string CHARSET) 0.

Definition in_charset (x : ascii) : bool :=
  existsb (Ascii.eqb x) (list_ascii_of_string CHARSET).

(** [str.isspace] on one character below 256. *)
Definition isspace (c : ascii) : bool :=
  let n := ord c in
  ((9 <=? n) && (n <=? 13)) || ((28 <=? n) && (n <=? 32))
  || (n =? 133) || (n =? 160).

Fixpoint lstrip (l : list ascii) : list ascii :=
  match l with
  | [] => []
  | c :: rest => if isspace c then lstrip rest else l
  end%list.

(** [str.strip()]. *)
Definition strip (l : list ascii) : list ascii :=
  rev (lstrip (rev (lstrip l))).

(** [str.lower()] and [str.upper()] on the characters that reach them
    in [bech32_decode], which are printable ASCII. *)
Definition lower_char (c : ascii) : ascii :=
  let n := ord c in
  if (65 <=? n) && (n <=? 90) then ascii_of_N (Z.to_N (n + 32)) else c.

Definition upper_char (c : ascii) : ascii :=
  let n := ord c in
  if (97 <=? n) && (n <=? 122) then ascii_of_N (Z.to_N (n - 32)) else c.

Definition list_ascii_eqb (a b : list ascii) : bool :=
  String.eqb (string_of_list_ascii a) (string_of_list_ascii b).

(** [bech.rfind("1")]: the index of the last ["1"], or [-1]. *)
Fixpoint rfind_from (l : list ascii) (i : Z) (found : Z) : Z :=
  match l with
  | [] => found
  | c :: rest => rfind_from rest (i + 1) (if Ascii.eqb c "1" then i else found)
  end%list.

Definition rfind_1 (l : list ascii) : Z := rfind_from l 0 (-1).

Definition bech32_decode (bech : string) : option (string * list Z) :=
  let max_length := 90 in
  let bech := strip (list_ascii_of_string bech) in
  if existsb (fun x => (ord x <? 33) || (126 <? ord x)) bech
     || (negb (list_ascii_eqb (map lower_char bech) bech)
         && negb (list_ascii_eqb (map upper_char bech) bech))
  then None
  else
    let bech := map lower_char bech in
    let pos := rfind_1 bech in
    let len := Z.of_nat (length bech) in
    if (pos <? 1) || (len <? pos + 7) || (max_length <? len) then None
    else
      let tail := skipn (Z.to_nat (pos + 1)) bech in
      if negb (forallb in_charset tail) then None
      else
        let hrp := string_of_list_ascii (firstn (Z.to_nat pos) bech) in
        let data := map charset_find tail in
        if negb (bech32_verify_checksum hrp data) then None
        else Some (hrp, firstn (length data - 6)%nat data).

(** The [while bits >= tobits] loop of [convertbits]; it takes one
    turn per [tobits] bits held, so [fuel] turns are enough when
    [fuel] is at least [bits] and [tobits] is positive. *)
Fixpoint convertbits_drain (fuel : nat) (acc bits tobits maxv : Z) (ret : list Z)
  : Z * list Z :=
  match fuel with
  | O => (bits, ret)
  | S fuel =>
      if tobits <=? bits then
        let bits := bits - tobits in
        convertbits_drain fuel acc bits tobits maxv
          (ret ++ [Z.land (Z.shiftr acc bits) maxv])%list
      else (bits, ret)
  end.

(** The [for value in data] loop of [convertbits]. *)
Fixpoint convertbits_loop (data : list Z) (frombits tobits maxv max_acc : Z)
    (acc bits : Z) (ret : list Z) : option (Z * Z * list Z) :=
  match data with
  | [] => Some (acc, bits, ret)
  | value :: rest =>
      if (value <? 0) || negb (Z.shiftr value frombits =? 0) then None
      else
        let acc := Z.land (Z.lor (Z.shiftl acc frombits) value) max_acc in
        let bits := bits + frombits in
        let '(bits, ret) :=
          convertbits_drain (Z.to_nat bits) acc bits tobits maxv ret in
        convertbits_loop rest frombits tobits maxv max_acc acc bits ret
  end%list.

Definition convertbits (data : list Z) (frombits tobits : Z) (pad : bool)
  : option (list Z) :=
  let maxv := Z.shiftl 1 tobits - 1 in
  let max_acc := Z.shiftl 1 (frombits + tobits - 1) - 1 in
  match convertbits_loop data frombits tobits maxv max_acc 0 0 [] with
  | None => None
  | Some (acc, bits, ret) =>
      if pad then
        if bits =? 0 then Some ret
        else Some (ret ++ [Z.land (Z.shiftl acc (tobits - bits)) maxv])%list
      else if (frombits <=? bits)
              || negb (Z.land (Z.shiftl acc (tobits - bits)) maxv =? 0)
      then None
      else Some ret
  end.

(** Iterating a [bytes] object gives ints. *)
Definition ints_of_bytes (b : bytes) : list Z :=
  map (fun x => Z.of_N (Byte.to_N x)) b.

(** [bytes32(decoded)]: 32 ints, each below 256. *)
Definition bytes32 (decoded : list Z) : option bytes :=
  if (length decoded =? 32)%nat
     && forallb (fun v => (0 <=? v) && (v <? 256)) decoded
  then
    Some (map (fun v => match Byte.of_N (Z.to_N v) with
                        | Some x => x
                        | None => x00%byte
                        end) decoded)
  else None.

Definition encode_puzzle_hash (puzzle_hash : bytes) (prefix : string)
  : option string :=
  match convertbits (ints_of_bytes puzzle_hash) 8 5 true with
  | Some data => bech32_encode prefix data
  | None => None
  end.

Definition decode_puzzle_hash (address : string) : option bytes :=
  match bech32_decode address with
  | None => None
  | Some (hrpgot, data) =>
      match convertbits data 5 8 false with
      | Some decoded => bytes32 decoded
      | None => None
      end
  end.

(** A prefix the decoder takes back: one to 31 printable ASCII
    characters, none of them an upper-case letter. *)
Definition hrp_char (c : ascii) : bool :=
  (33 <=? ord c) && (ord c <=? 126) && negb ((65 <=? ord c) && (ord c <=? 90)).

Definition well_formed_prefix (prefix : string) : bool :=
  (1 <=? String.length prefix)%nat && (String.length prefix <=? 31)%nat
  && forallb hrp_char (list_ascii_of_string prefix).

End Bech32m.

(** ** Bit strings, to reason about [convertbits] *)

Module Bits.

(** The [w] low bits of [v], most significant first. *)
Fixpoint digits (w : nat) (v : Z) : list bool :=
  match w with
  | O => []
  | S w' => (digits w' (Z.div2 v) ++ [Z.odd v])%list
  end.

(** The number a bit string writes, most significant bit first. *)
Definition value (bs : list bool) : Z :=
  fold_left (fun a b => 2 * a + Z.b2z b) bs 0.

(** The bit string a list of [w]-bit numbers writes. *)
Definition stream (w : nat) (vs : list Z) : list bool :=
  flat_map (digits w) vs.

(** A number that fits [w] bits. *)
Definition in_range (w : nat) (v : Z) : Prop := 0 <= v < 2 ^ Z.of_nat w.

(** The bits [pending] are the low bits of the accumulator [acc]. *)
Definition holds (acc : Z) (pending : list bool) : Prop :=
  acc mod 2 ^ Z.of_nat (length pending) = value pending.

End Bits.

(** ** Auxiliary notions for the proofs about [Bech32m] *)

Module Bech32mAux.

Import Bech32m.

(** The generator word the loop of [bech32_polymod] folds in for bit
    [i] of [top]. *)
Definition mask (top : Z) (i : nat) : Z :=
  if Z.land (Z.shiftr top (Z.of_nat i)) 1 =? 0 then 0 else nth i generator 0.

(** A printable ASCII character that [str.lower] leaves alone. *)
Definition plain_char (c : ascii) : Prop :=
  33 <= ord c <= 126 /\ lower_char c = c.

(** What the decoder needs of a character of the payload. *)
Definition payload_char (c : ascii) : Prop :=
  in_charset c = true /\ c <> "1"%char /\ lower_char c = c /\
  33 <= ord c <= 126.

End Bech32mAux.

(** ** Mnemonics: [chia.util.keychain] *)

Module Bip39.

Import Bits.

(** [" ".join(words)]. *)
Fixpoint join_space (words : list string) : string :=
  match words with
  | [] => ""
  | w :: rest =>
      match rest with
      | [] => w
      | _ :: _ => (w ++ " " ++ join_space rest)%string
      end
  end%list.

(** [s.split(" ")]: one piece more than there are spaces. *)
Fixpoint split_space (s : string) : list string :=
  match s with
  | EmptyString => [""%string]
  | String c rest =>
      if Ascii.eqb c " " then ""%string :: split_space rest
      else match split_space rest with
           | w :: ws => String c w :: ws
           | [] => [String c ""%string]
           end
  end%list.

(** A word without a space in it. *)
Fixpoint no_space (w : string) : bool :=
  match w with
  | EmptyString => true
  | String c rest => negb (Ascii.eqb c " ") && no_space rest
  end.

(** A list of words without repetition. *)
Fixpoint distinct (l : list string) : bool :=
  match l with
  | [] => true
  | w :: rest => negb (existsb (String.eqb w) rest) && distinct rest
  end%list.

(** [BitArray(b)] for a [bytes] object [b]. *)
Definition bits_of_bytes (b : bytes) : list bool :=
  stream 8 (map (fun x => Z.of_N (Byte.to_N x)) b).

(** [bits[start:end]]. *)
Definition slice {A} (l : list A) (first last : nat) : list A :=
  firstn (last - first) (skipn first l).

(** [bits.bytes], for a whole number of bytes. *)
Definition bytes_of_bits (bits : list bool) : option bytes :=
  if (length bits mod 8 =? 0)%nat then
    Some (map (fun i =>
                 match Byte.of_N (Z.to_N (value (slice bits (8 * i) (8 * i + 8)))) with
                 | Some x => x
                 | None => x00%byte
                 end)
              (seq 0 (length bits / 8)))
  else None.

Fixpoint all_some {A} (l : list (option A)) : option (list A) :=
  match l with
  | [] => Some []
  | x :: rest =>
      match x, all_some rest with
      | Some v, Some vs => Some (v :: vs)
      | _, _ => None
      end
  end%list.

Section Wordlist.

(** Modelled from the spec: [chia.util.keychain] is imported by
    keys.py and is not under src/.  The spec describes a mnemonic as
    an "ordered sequence of words encoding the entropy plus checksum",
    made with "a standardized wordlist and checksum scheme"; the
    definitions below follow that standard as the module implements
    it: the entropy bits followed by the first [len / 4] bits of the
    hash of the entropy, cut into groups of 11 bits, each group the
    position of a word.  The 2048 words ([word_list]) and the hash
    ([std_hash], SHA-256) are parameters. *)
Variable word_list : list string.
Variable std_hash : bytes -> bytes.

Definition bytes_to_mnemonic (mnemonic_bytes : bytes) : option string :=
  if negb (existsb (Nat.eqb (length mnemonic_bytes)) [16; 20; 24; 28; 32])%nat
  then None
  else
    let CS := (length mnemonic_bytes / 4)%nat in
    let checksum := firstn CS (bits_of_bytes (std_hash mnemonic_bytes)) in
    let bitarray := (bits_of_bytes mnemonic_bytes ++ checksum)%list in
    if negb (length bitarray mod 11 =? 0)%nat then None
    else
      match all_some
              (map (fun i =>
                      let start := (i * 11)%nat in
                      let bits := slice bitarray start (start + 11) in
                      nth_error word_list (Z.to_nat (value bits)))
                   (seq 0 (length bitarray / 11)))
      with
      | Some mnemonics => Some (join_space mnemonics)
      | None => None
      end.

(** The word a group of 11 bits stands for. *)
Definition word_of (group : list bool) : string :=
  nth (Z.to_nat (value group)) word_list "".

(** [{word: i for i, word in enumerate(word_list)}[w]]: the last
    position of [w]. *)
Fixpoint index_from (w : string) (l : list string) (i : nat) (found : option nat)
  : option nat :=
  match l with
  | [] => found
  | x :: rest => index_from w rest (S i) (if String.eqb x w then Some i else found)
  end%list.

Definition word_index (w : string) : option nat := index_from w word_list 0%nat None.

(** [BitArray(uint=value, length=11)]. *)
Definition uint11 (n : nat) : option (list bool) :=
  if (n <? 2048)%nat then Some (digits 11 (Z.of_nat n)) else None.

(** The reverse, [bytes_from_mnemonic]. *)
Definition bytes_from_mnemonic (mnemonic_str : string) : option bytes :=
  let mnemonic := split_space mnemonic_str in
  if negb (existsb (Nat.eqb (length mnemonic)) [12; 15; 18; 21; 24])%nat then None
  else
    match all_some (map (fun word => match word_index word with
                                     | Some n => uint11 n
                                     | None => None
                                     end) mnemonic)
    with
    | None => None
    | Some groups =>
        let bit_array := concat groups in
        let CS := (length mnemonic / 3)%nat in
        let ENT := (length mnemonic * 11 - CS)%nat in
        if negb (length bit_array =? length mnemonic * 11)%nat
           || negb (ENT mod 32 =? 0)%nat
        then None
        else
          match bytes_of_bits (slice bit_array 0 ENT) with
          | None => None
          | Some entropy_bytes =>
              let checksum_bytes := skipn ENT bit_array in
              let checksum := firstn CS (bits_of_bytes (std_hash entropy_bytes)) in
              if negb (length checksum_bytes =? CS)%nat then None
              else if negb (forallb (fun p => Bool.eqb (fst p) (snd p))
                              (combine checksum checksum_bytes)
                            && (length checksum =? length checksum_bytes)%nat)
              then None
              else Some entropy_bytes
          end
    end.

End Wordlist.

(** A word list to run on: the 2048 strings of 11 binary digits, and a
    hash that repeats its first byte. *)
Definition toy_words : list string :=
  map (fun i => string_of_list_ascii
                  (map (fun b : bool => if b then "1"%char else "0"%char)
                       (digits 11 (Z.of_nat i))))
      (seq 0 2048).

Definition toy_hash (b : bytes) : bytes := repeat (hd x00%byte b) 32.

Definition toy_entropy : bytes :=
  [x00; x11; x22; x33; x44; x55; x66; x77; x88; x99; xaa; xbb; xcc; xdd; xee; xff]%byte.

End Bip39.

(** ** The library with the two encoders filled in *)

(** [L] with [bytes_to_mnemonic] and [encode_puzzle_hash] as modelled
    above; where the encoders raise, which they do on no input the
    program gives them, the strings are empty. *)
Definition with_encoders (L : Library)
    (word_list : list string) (std_hash : bytes -> bytes) : Library := {|
  PrivateKey := PrivateKey L;
  G1Element := G1Element L;
  bytes_to_mnemonic := fun mnemonic_bytes =>
    match Bip39.bytes_to_mnemonic word_list std_hash mnemonic_bytes with
    | Some mnemonic => mnemonic
    | None => ""
    end;
  mnemonic_to_seed := mnemonic_to_seed L;
  key_gen := key_gen L;
  _derive_path := _derive_path L;
  master_sk_to_wallet_sk_unhardened := master_sk_to_wallet_sk_unhardened L;
  get_g1 := get_g1 L;
  sk_bytes := sk_bytes L;
  g1_str := g1_str L;
  calculate_synthetic_public_key := calculate_synthetic_public_key L;
  DEFAULT_HIDDEN_PUZZLE_HASH := DEFAULT_HIDDEN_PUZZLE_HASH L;
  puzzle_hash_for_synthetic_public_key := puzzle_hash_for_synthetic_public_key L;
  encode_puzzle_hash := fun puzzle_hash prefix =>
    match Bech32m.encode_puzzle_hash puzzle_hash prefix with
    | Some address => address
    | None => ""
    end;
  get_config_item := get_config_item L
|}.

(** ** Reading the call log and the terminal *)

(** The paths asked of [get_config_item], in call order. *)
Definition config_paths {L} (es : list (Event L)) : list (list string) :=
  flat_map (fun e => match e with
                     | Call_get_config_item _ path => [path]
                     | _ => []
                     end) es.

(** The five lines a run that returns with the frame [loc] has
    echoed. *)
Definition lines_of {L} (loc : Locals L) : list string :=
  ["Generating XCH key...";
   "Mnemonic: " ++ mnemonic loc;
   "Private Key: " ++ hex (sk_bytes L (private_key loc));
   "Public Key: " ++ g1_str L (public_key loc);
   "First address: " ++ first_address loc].

(** The digits [bytes.hex()] writes, and the value of one. *)
Definition hex_digits : list ascii :=
  list_ascii_of_string "0123456789abcdef".

Definition hex_value (c : ascii) : N :=
  match c with
  | "0" => 0 | "1" => 1 | "2" => 2 | "3" => 3 | "4" => 4 | "5" => 5
  | "6" => 6 | "7" => 7 | "8" => 8 | "9" => 9 | "a" => 10 | "b" => 11
  | "c" => 12 | "d" => 13 | "e" => 14 | "f" => 15 | _ => 16
  end%N%char.

(** ** Runs one after the other, on the small library *)

Module Sample.

(** Randomness that does not repeat for a while: the bytes of a
    table, and zeros after it. *)
Definition table : bytes :=
  [x3c; x91; x07; xe2; x5d; xb8; x44; x1f; x6a; xd3; x0e; x75; xc9; x20; x8b; xf6;
   xa1; x58; x2d; x94; x0b; xe7; x73; x3e; xcf; x16; x89; x62; xfd; x40; xb5; x9a;
   x27; xdc]%byte.

Definition source : RandSource := Available (fun i => nth i table x00%byte).

(** The same randomness but for its third byte. *)
Definition source' : RandSource :=
  Available (fun i => if (i =? 2)%nat then xff%byte else nth i table x00%byte).

Definition world : World Toy.lib :=
  mkWorld source ["$ bridge keys generate-xch-key"] [].

Definition world' : World Toy.lib := mkWorld source' [] [].

(** The first run, the run after it, and the run in the other
    world. *)
Definition frame1 : Locals Toy.lib :=
  Eval vm_compute in
    match fst (run (generate_xch_key Toy.lib) world) with
    | inr loc => loc
    | inl _ => Toy.no_frame Toy.lib [] []
    end.

Definition after1 : World Toy.lib :=
  Eval vm_compute in snd (run (generate_xch_key Toy.lib) world).

Definition frame2 : Locals Toy.lib :=
  Eval vm_compute in
    match fst (run (generate_xch_key Toy.lib) after1) with
    | inr loc => loc
    | inl _ => Toy.no_frame Toy.lib [] []
    end.

Definition after2 : World Toy.lib :=
  Eval vm_compute in snd (run (generate_xch_key Toy.lib) after1).

Definition frame' : Locals Toy.lib :=
  Eval vm_compute in
    match fst (run (generate_xch_key Toy.lib) world') with
    | inr loc => loc
    | inl _ => Toy.no_frame Toy.lib [] []
    end.

Definition after' : World Toy.lib :=
  Eval vm_compute in snd (run (generate_xch_key Toy.lib) world').

End Sample.

(** ** A derivation that shows its path *)

Module Marked.

(** One byte for each index of a path: the index modulo 256. *)
Definition path_mark (path : list Z) : bytes :=
  map (fun index =>
         match Byte.of_N (Z.to_N (index mod 256)) with
         | Some x => x
         | None => x00%byte
         end) path.

(** The small library with a [_derive_path] that leaves the path it
    was given on the key. *)
Definition lib : Library :=
  with_derive_path Toy.lib (fun sk path => (sk ++ path_mark path)%list).

Definition world : World lib := mkWorld Sample.source [] [].

Definition frame : Locals lib :=
  Eval vm_compute in
    match fst (run (generate_xch_key lib) world) with
    | inr loc => loc
    | inl _ => Toy.no_frame lib [] []
    end.

Definition after : World lib :=
  Eval vm_compute in snd (run (generate_xch_key lib) world).

End Marked.

(** ** The other command: [generate_eth_key] *)

Module Eth.

(** What [generate_eth_key] imports: [eth_account.Account] and
    [web3.auto.w3].  The command catches nothing, so whatever one of
    its calls raises ends the run; each call is a function of its
    argument that returns or raises.  [create] is [Account.create()],
    which reads the operating system's randomness and leaves the rest
    of it; [key_hex] is [account.key.hex()], [public_key_str] is
    [str(account._key_obj.public_key)], which is what the f-string
    prints, and [address] is the attribute [account.address]. *)
Record Library : Type := {
  Exception : Type;
  LocalAccount : Type;
  create : RandSource -> Exception + (LocalAccount * RandSource);
  key_hex : LocalAccount -> Exception + string;
  public_key_str : LocalAccount -> Exception + string;
  address : LocalAccount -> string;
  to_checksum_address : string -> Exception + string
}.

Section Program.

Context (E : Library).

(** One call into a library, with the argument it was given. *)
Inductive Event : Type :=
| Call_create
| Call_key_hex (account : LocalAccount E)
| Call_public_key_str (account : LocalAccount E)
| Call_to_checksum_address (value : string).

(** The state a run threads, as for [generate_xch_key]. *)
Record World : Type := mkWorld {
  urandom : RandSource;
  stdout : list string;
  calls : list Event
}.

Definition M : Type -> Type := eitherT (Exception E) (state World).

Definition run {A} (c : M A) (w : World) : (Exception E + A) * World :=
  runState (unEitherT c) w.

(** [click.echo(line)]. *)
Definition echo (line : string) : M unit :=
  modify (fun w => mkWorld (urandom w) (stdout w ++ [line]) (calls w)) ;;
  ret tt.

Definition log (e : Event) : M unit :=
  modify (fun w => mkWorld (urandom w) (stdout w) (calls w ++ [e])) ;;
  ret tt.

(** A library call: its result, or its raise. *)
Definition call {A} (e : Event) (result : Exception E + A) : M A :=
  log e ;;
  match result with
  | inr v => ret v
  | inl x => raise x
  end.

(** [Account.create()]. *)
Definition Account_create : M (LocalAccount E) :=
  log Call_create ;;
  w <- get ;;
  match create E (urandom w) with
  | inl x => raise x
  | inr (account, rest) =>
      put (mkWorld rest (stdout w) (calls w)) ;;
      ret account
  end.

(** [generate_eth_key], keys.py lines 42-50.  The Python function
    returns nothing; the model hands back the account. *)
Definition generate_eth_key : M (LocalAccount E) :=
  echo "Generating ETH key..." ;;
  account <- Account_create ;;
  key <- call (Call_key_hex account) (key_hex E account) ;;
  echo ("Private Key: " ++ key) ;;
  public_key <- call (Call_public_key_str account) (public_key_str E account) ;;
  echo ("Public Key: " ++ public_key) ;;
  checksum_address <-
    call (Call_to_checksum_address (address E account))
         (to_checksum_address E (address E account)) ;;
  echo ("Address: " ++ checksum_address) ;;
  ret account.

End Program.

Arguments mkWorld {E}.
Arguments urandom {E}.
Arguments stdout {E}.
Arguments calls {E}.
Arguments run {E A}.
Arguments Call_create {E}.

(** The lines a run has echoed for the account it created: all
    three when it returns. *)
Definition lines_of (key public_key checksum_address : string) : list string :=
  ["Generating ETH key...";
   "Private Key: " ++ key;
   "Public Key: " ++ public_key;
   "Address: " ++ checksum_address].

(** What a run from [w] to [w'] has added to the terminal and to the
    call log. *)
Definition new_lines {E} (w w' : World E) : list string :=
  skipn (length (stdout w)) (stdout w').

Definition new_calls {E} (w w' : World E) : list (Event E) :=
  skipn (length (calls w)) (calls w').

(** A small library to run the command on: an account is the 32
    bytes it was made from, and a checksum address has its letters
    after the first two in upper case. *)
Module Toy.

Definition upper (c : ascii) : ascii :=
  let n := N_of_ascii c in
  if ((97 <=? n) && (n <=? 122))%N then ascii_of_N (n - 32) else c.

Fixpoint map_string (f : ascii -> ascii) (s : string) : string :=
  match s with
  | EmptyString => EmptyString
  | String c rest => String (f c) (map_string f rest)
  end.

Definition lib : Library := {|
  Exception := string;
  LocalAccount := bytes;
  create := fun source =>
    match source with
    | Unavailable => inl "NotImplementedError"
    | Available pool =>
        inr (map pool (seq 0 32), Available (fun i => pool (32 + i)%nat))
    end;
  key_hex := fun account => inr ("0x" ++ hex account);
  public_key_str := fun account => inr ("0x" ++ hex (rev account));
  address := fun account => "0x" ++ hex (firstn 20 account);
  to_checksum_address := fun value =>
    match value with
    | String "0" (String "x" digits) => inr ("0x" ++ map_string upper digits)
    | _ => inl "ValueError"
    end
|}.

(** The same library with an account whose address is refused. *)
Definition lib' : Library := {|
  Exception := string;
  LocalAccount := bytes;
  create := create lib;
  key_hex := key_hex lib;
  public_key_str := public_key_str lib;
  address := fun account => hex (firstn 20 account);
  to_checksum_address := to_checksum_address lib
|}.

Definition world : World lib :=
  mkWorld (Available (fun i => Byte.xab)) ["$ bridge keys generate-eth-key"] [].

Definition world' : World lib' :=
  mkWorld (Available (fun i => Byte.xab)) [] [].

Definition dry : World lib := mkWorld Unavailable [] [].

Definition account : LocalAccount lib := repeat Byte.xab 32.

Definition after : World lib :=
  Eval vm_compute in snd (run (generate_eth_key lib) world).

Definition after' : World lib' :=
  Eval vm_compute in snd (run (generate_eth_key lib') world').

Definition after_dry : World lib :=
  Eval vm_compute in snd (run (generate_eth_key lib) dry).

End Toy.

End Eth.

(** ** Runs of the program *)

Section Runs.

Context (L : Library).

Implicit Types (w : World L) (loc : Locals L).

Ltac step_run :=
  unfold run, generate_xch_key, mnemonic_to_validator_pk,
    call_bytes_to_mnemonic, call_mnemonic_to_seed, call_key_gen,
    call_derive_path, call_master_sk_to_wallet_sk_unhardened, call_get_g1,
    call_calculate_synthetic_public_key,
    call_puzzle_hash_for_synthetic_public_key, call_get_config_item,
    call_encode_puzzle_hash; cbn.

(** [mnemonic_to_validator_pk] in full: its value is a function of
    the mnemonic, and all it does to the world is log three calls
    (one, when the seed derivation raises). *)
Lemma mnemonic_to_validator_pk_run w m :
  run (mnemonic_to_validator_pk L m) w =
    match mnemonic_to_seed L m with
    | Some s =>
        (inr (_derive_path L (key_gen L s) [12381; 8444; 7; 0]),
         mkWorld (urandom w) (stdout w)
           (calls w ++ [Call_mnemonic_to_seed L m; Call_key_gen L s;
                        Call_derive_path L (key_gen L s) [12381; 8444; 7; 0]]))
    | None =>
        (inl InvalidMnemonic,
         mkWorld (urandom w) (stdout w) (calls w ++ [Call_mnemonic_to_seed L m]))
    end.
Proof.
  step_run. destruct (mnemonic_to_seed L m); cbn; [|reflexivity].
  rewrite <- !app_assoc. reflexivity.
Qed.

(** Without randomness the run stops after the banner. *)
Lemma generate_xch_key_unavailable w :
  urandom w = Unavailable ->
  run (generate_xch_key L) w =
    (inl RandomnessUnavailable,
     mkWorld Unavailable (stdout w ++ ["Generating XCH key..."])
       (calls w ++ [Call_token_bytes L 16])).
Proof.
  intros H. step_run. rewrite H. reflexivity.
Qed.

(** A mnemonic the seed derivation refuses stops the run after the
    mnemonic line. *)
Lemma generate_xch_key_invalid w pool :
  urandom w = Available pool ->
  mnemonic_to_seed L (bytes_to_mnemonic L (map pool (seq 0 16))) = None ->
  run (generate_xch_key L) w =
    (inl InvalidMnemonic,
     mkWorld (Available (fun i => pool (16 + i)%nat))
       (stdout w ++ ["Generating XCH key...";
                     "Mnemonic: " ++ bytes_to_mnemonic L (map pool (seq 0 16))])
       (calls w ++ [Call_token_bytes L 16;
                    Call_bytes_to_mnemonic L (map pool (seq 0 16));
                    Call_mnemonic_to_seed L
                      (bytes_to_mnemonic L (map pool (seq 0 16)))])).
Proof.
  intros H E. step_run. rewrite H. cbn in *. rewrite E. cbn.
  rewrite <- !app_assoc. reflexivity.
Qed.

Lemma generate_xch_key_returned w loc w' :
  run (generate_xch_key L) w = (inr loc, w') -> Returned L w loc w'.
Proof.
  step_run. destruct (urandom w) as [|pool] eqn:Hr; cbn; [discriminate|].
  destruct (mnemonic_to_seed L _) as [s|] eqn:Hs; cbn; [|discriminate].
  intros H. injection H as <- <-. cbn.
  constructor; cbn; try reflexivity; try assumption.
  - exists pool. repeat split; assumption || reflexivity.
  - rewrite <- !app_assoc. reflexivity.
  - rewrite <- !app_assoc. reflexivity.
Qed.

(** The run returns exactly when there is randomness and the seed
    derivation accepts the fresh mnemonic. *)
Lemma generate_xch_key_returns w pool s :
  urandom w = Available pool ->
  mnemonic_to_seed L (bytes_to_mnemonic L (map pool (seq 0 16))) = Some s ->
  exists loc w', run (generate_xch_key L) w = (inr loc, w').
Proof.
  intros H E. step_run. rewrite H. cbn in *. rewrite E. cbn.
  eexists. eexists. reflexivity.
Qed.

End Runs.

(** ** The claims about [generate_xch_key] and [mnemonic_to_validator_pk] *)

Section Claims.

Context (L : Library).

Implicit Types (w : World L) (loc : Locals L).

Lemma skipn_length_app {A} (l l' : list A) : skipn (length l) (l ++ l') = l'.
Proof. induction l; cbn; auto. Qed.

Lemma last_app_cons {A} (l : list A) x l' d :
  last (l ++ x :: l') d = last (x :: l') d.
Proof.
  induction l as [|y l IH]; [reflexivity|].
  cbn [app]. rewrite <- IH. destruct l; reflexivity.
Qed.

Lemma new_lines_returned w loc w' :
  Returned L w loc w' ->
  new_lines w w' =
    ["Generating XCH key...";
     ("Mnemonic: " ++ mnemonic loc)%string;
     ("Private Key: " ++ hex (sk_bytes L (private_key loc)))%string;
     ("Public Key: " ++ g1_str L (public_key loc))%string;
     ("First address: " ++ first_address loc)%string].
Proof.
  intros R. unfold new_lines. rewrite (ret_stdout _ _ _ _ R).
  apply skipn_length_app.
Qed.

Lemma new_calls_returned w loc w' :
  Returned L w loc w' ->
  new_calls w w' =
    [Call_token_bytes L 16;
     Call_bytes_to_mnemonic L (entropy loc);
     Call_mnemonic_to_seed L (mnemonic loc);
     Call_key_gen L (seed loc);
     Call_derive_path L (root_key loc) [12381; 8444; 7; 0];
     Call_get_g1 L (private_key loc);
     Call_mnemonic_to_seed L (mnemonic loc);
     Call_key_gen L (seed loc);
     Call_derive_path L (root_key loc) [12381; 8444; 7; 0];
     Call_master_sk_to_wallet_sk_unhardened L (root_key loc) 0;
     Call_get_g1 L (first_wallet_sk loc);
     Call_calculate_synthetic_public_key L (first_wallet_pk loc)
       (DEFAULT_HIDDEN_PUZZLE_HASH L);
     Call_puzzle_hash_for_synthetic_public_key L (first_wallet_synthetic_key loc);
     Call_get_config_item L ["xch"; "prefix"];
     Call_encode_puzzle_hash L (first_puzzle_hash loc)
       (get_config_item L ["xch"; "prefix"])].
Proof.
  intros R. unfold new_calls. rewrite (ret_calls _ _ _ _ R).
  apply skipn_length_app.
Qed.

(** Every run ends in one of three ways. *)
Lemma generate_xch_key_cases w :
  (exists loc w', run (generate_xch_key L) w = (inr loc, w') /\ Returned L w loc w')
  \/ (urandom w = Unavailable /\
      run (generate_xch_key L) w =
        (inl RandomnessUnavailable,
         mkWorld Unavailable (stdout w ++ ["Generating XCH key..."])
           (calls w ++ [Call_token_bytes L 16])))
  \/ (exists pool,
        urandom w = Available pool /\
        run (generate_xch_key L) w =
          (inl InvalidMnemonic,
           mkWorld (Available (fun i => pool (16 + i)%nat))
             (stdout w ++ ["Generating XCH key...";
                           "Mnemonic: " ++ bytes_to_mnemonic L (map pool (seq 0 16))])
             (calls w ++ [Call_token_bytes L 16;
                          Call_bytes_to_mnemonic L (map pool (seq 0 16));
                          Call_mnemonic_to_seed L
                            (bytes_to_mnemonic L (map pool (seq 0 16)))]))).
Proof.
  destruct (urandom w) as [|pool] eqn:Hr.
  - right; left. split; [reflexivity|].
    now apply generate_xch_key_unavailable.
  - destruct (mnemonic_to_seed L (bytes_to_mnemonic L (map pool (seq 0 16))))
      as [s|] eqn:Hs.
    + left. destruct (generate_xch_key_returns L w pool s Hr Hs) as (loc & w' & H).
      exists loc, w'. split; [assumption|].
      now apply generate_xch_key_returned.
    + right; right. exists pool. split; [reflexivity|].
      now apply generate_xch_key_invalid.
Qed.

(** C1: in a run of [generate_xch_key] that returns, the validator
    key and the first wallet key are both derived from the one root
    key [key_gen seed]; the wallet key is
    [master_sk_to_wallet_sk_unhardened root_key 0]; and the address
    on the last line is that key's public key, made synthetic with
    [DEFAULT_HIDDEN_PUZZLE_HASH], hashed to a puzzle hash and encoded
    with the configured prefix.  The validator key does not occur in
    it. *)
Theorem first_address_pipeline w loc w' :
  run (generate_xch_key L) w = (inr loc, w') ->
  root_key loc = key_gen L (seed loc) /\
  private_key loc = _derive_path L (root_key loc) [12381; 8444; 7; 0] /\
  first_wallet_sk loc = master_sk_to_wallet_sk_unhardened L (root_key loc) 0 /\
  first_address loc =
    encode_puzzle_hash L
      (puzzle_hash_for_synthetic_public_key L
         (calculate_synthetic_public_key L
            (get_g1 L (master_sk_to_wallet_sk_unhardened L (root_key loc) 0))
            (DEFAULT_HIDDEN_PUZZLE_HASH L)))
      (get_config_item L ["xch"; "prefix"]) /\
  skipn 9 (new_calls w w') =
    [Call_master_sk_to_wallet_sk_unhardened L (root_key loc) 0;
     Call_get_g1 L (first_wallet_sk loc);
     Call_calculate_synthetic_public_key L (first_wallet_pk loc)
       (DEFAULT_HIDDEN_PUZZLE_HASH L);
     Call_puzzle_hash_for_synthetic_public_key L (first_wallet_synthetic_key loc);
     Call_get_config_item L ["xch"; "prefix"];
     Call_encode_puzzle_hash L (first_puzzle_hash loc)
       (get_config_item L ["xch"; "prefix"])] /\
  last (stdout w') "" = "First address: " ++ first_address loc.
Proof.
  intros H. pose proof (generate_xch_key_returned L w loc w' H) as R.
  pose proof (new_calls_returned w loc w' R) as C.
  destruct R. repeat split; try assumption.
  - rewrite ret_first_address0, ret_first_puzzle_hash0,
      ret_first_wallet_synthetic_key0, ret_first_wallet_pk0,
      ret_first_wallet_sk0. reflexivity.
  - rewrite C. reflexivity.
  - rewrite ret_stdout0, last_app_cons. reflexivity.
Qed.

(** C3: the validator key is the key [_derive_path] gives for the
    root key and the path [12381, 8444, 7, 0], whatever function
    [_derive_path] is: it is what [mnemonic_to_validator_pk] returns
    (line 19), what [generate_xch_key] prints on the private key line
    (line 27) and what it holds after line 34.  Every call of
    [_derive_path] the program makes is given that path: a run of
    [generate_xch_key] that returns has made two such calls, a run
    that raises none, and [mnemonic_to_validator_pk] makes one when
    it returns. *)
Theorem derivation_path_constant w m :
  fst (run (mnemonic_to_validator_pk L m) w) =
    match mnemonic_to_seed L m with
    | Some s => inr (_derive_path L (key_gen L s) [12381; 8444; 7; 0])
    | None => inl InvalidMnemonic
    end /\
  match fst (run (generate_xch_key L) w) with
  | inr loc =>
      mnemonic_to_seed L (mnemonic loc) = Some (seed loc) /\
      private_key loc = _derive_path L (key_gen L (seed loc)) [12381; 8444; 7; 0] /\
      nth_error (new_lines w (snd (run (generate_xch_key L) w))) 2 =
        Some ("Private Key: " ++
              hex (sk_bytes L (_derive_path L (key_gen L (seed loc))
                                 [12381; 8444; 7; 0])))
  | inl _ => True
  end /\
  derivation_paths (new_calls w (snd (run (generate_xch_key L) w))) =
    match fst (run (generate_xch_key L) w) with
    | inr _ => [[12381; 8444; 7; 0]; [12381; 8444; 7; 0]]
    | inl _ => []
    end /\
  derivation_paths (new_calls w (snd (run (mnemonic_to_validator_pk L m) w))) =
    match fst (run (mnemonic_to_validator_pk L m) w) with
    | inr _ => [[12381; 8444; 7; 0]]
    | inl _ => []
    end.
Proof.
  split; [|split; [|split]].
  - rewrite mnemonic_to_validator_pk_run.
    destruct (mnemonic_to_seed L m); reflexivity.
  - destruct (generate_xch_key_cases w)
      as [(loc & w' & -> & R) | [(_ & ->) | (pool & _ & ->)]]; cbn [fst snd];
      [|exact I|exact I].
    rewrite (new_lines_returned w loc w' R). destruct R.
    rewrite <- ret_root_key0, <- ret_private_key0. repeat split; assumption.
  - destruct (generate_xch_key_cases w)
      as [(loc & w' & -> & R) | [(_ & ->) | (pool & _ & ->)]]; cbn [fst snd].
    + rewrite (new_calls_returned w loc w' R). reflexivity.
    + unfold new_calls; cbn [calls]. rewrite skipn_length_app. reflexivity.
    + unfold new_calls; cbn [calls]. rewrite skipn_length_app. reflexivity.
  - rewrite mnemonic_to_validator_pk_run.
    destruct (mnemonic_to_seed L m); cbn [fst snd]; unfold new_calls; cbn [calls];
      rewrite skipn_length_app; reflexivity.
Qed.

(** C5: a run of [generate_xch_key] that returns has added to
    standard output, after the banner, the mnemonic, the private key
    in hex, the public key as [str] gives it and the first address,
    in this order; a run that raises has added a beginning of that
    sequence. *)
Theorem output_lines_in_order w :
  (forall loc w',
     run (generate_xch_key L) w = (inr loc, w') ->
     stdout w' =
       (stdout w ++
        ["Generating XCH key...";
         ("Mnemonic: " ++ bytes_to_mnemonic L (entropy loc))%string;
         ("Private Key: " ++
            hex (sk_bytes L (_derive_path L (key_gen L (seed loc))
                               [12381; 8444; 7; 0])))%string;
         ("Public Key: " ++
            g1_str L (get_g1 L (_derive_path L (key_gen L (seed loc))
                                  [12381; 8444; 7; 0])))%string;
         ("First address: " ++
            encode_puzzle_hash L (first_puzzle_hash loc)
              (get_config_item L ["xch"; "prefix"]))%string])%list /\
     mnemonic_to_seed L (bytes_to_mnemonic L (entropy loc)) = Some (seed loc)) /\
  (forall x w',
     run (generate_xch_key L) w = (inl x, w') ->
     stdout w' = (stdout w ++ ["Generating XCH key..."])%list \/
     exists mnemonic,
       stdout w' =
         (stdout w ++ ["Generating XCH key...";
                       ("Mnemonic: " ++ mnemonic)%string])%list).
Proof.
  split.
  - intros loc w' H. destruct (generate_xch_key_returned L w loc w' H).
    split.
    + rewrite ret_stdout0, ret_public_key0, ret_private_key0, ret_root_key0,
        ret_first_address0, ret_mnemonic0.
      reflexivity.
    + now rewrite <- ret_mnemonic0.
  - intros x w' H.
    destruct (generate_xch_key_cases w)
      as [(loc & w1 & E & _) | [(_ & E) | (pool & _ & E)]];
      rewrite E in H;
      first [ discriminate
            | injection H as <- <-;
              solve [left; reflexivity | right; eexists; reflexivity] ].
Qed.




End Claims.

(** C10: the first address does not depend on [_derive_path]: put any
    two functions in its place and run [generate_xch_key] twice; if the
    two runs print the same mnemonic they have the same root key and
    print the same first address, which is the encoding, with the
    configured prefix, of a puzzle hash computed from the root key
    alone. *)
Theorem first_address_ignores_validator_path
    (L : Library) (dp1 dp2 : PrivateKey L -> list Z -> PrivateKey L)
    (w1 : World (with_derive_path L dp1)) (w2 : World (with_derive_path L dp2))
    loc1 loc2 w1' w2' :
  run (generate_xch_key (with_derive_path L dp1)) w1 = (inr loc1, w1') ->
  run (generate_xch_key (with_derive_path L dp2)) w2 = (inr loc2, w2') ->
  mnemonic loc1 = mnemonic loc2 ->
  root_key loc1 = root_key loc2 /\
  first_address loc1 = first_address loc2 /\
  first_address loc1 =
    encode_puzzle_hash L
      (puzzle_hash_for_synthetic_public_key L
         (calculate_synthetic_public_key L
            (get_g1 L (master_sk_to_wallet_sk_unhardened L (root_key loc1) 0))
            (DEFAULT_HIDDEN_PUZZLE_HASH L)))
      (get_config_item L ["xch"; "prefix"]) /\
  last (stdout w1') "" = ("First address: " ++ first_address loc1)%string /\
  last (stdout w2') "" = last (stdout w1') "".
Proof.
  intros H1 H2 Hm.
  destruct (generate_xch_key_returned _ _ _ _ H1)
    as [_ _ S1 K1 _ _ F1 P1 Y1 Z1 A1 O1 _].
  destruct (generate_xch_key_returned _ _ _ _ H2)
    as [_ _ S2 K2 _ _ F2 P2 Y2 Z2 A2 O2 _].
  cbn in *. rewrite Hm in S1. rewrite S1 in S2. injection S2 as S2.
  assert (K : root_key loc1 = root_key loc2) by (rewrite K1, K2, S2; reflexivity).
  assert (A : first_address loc1 = first_address loc2).
  { rewrite A1, A2, Z1, Z2, Y1, Y2, P1, P2, F1, F2, K. reflexivity. }
  repeat split; try assumption.
  - rewrite A1, Z1, Y1, P1, F1. reflexivity.
  - rewrite O1. apply last_app_cons.
  - rewrite O1, O2, !last_app_cons. cbn [last]. now rewrite A.
Qed.

(** ** The claims on a run of the small library *)

Lemma toy_run : run (generate_xch_key Toy.lib) Toy.world = (inr Toy.frame, Toy.after).
Proof. reflexivity. Defined.

Lemma toy_run' : run (generate_xch_key Toy.lib') Toy.world' = (inr Toy.frame', Toy.after').
Proof. reflexivity. Defined.

Lemma first_address_pipeline_witness :
  run (generate_xch_key Toy.lib) Toy.world = (inr Toy.frame, Toy.after) /\
  first_wallet_sk Toy.frame = [x01; x32; xbb]%byte /\
  first_address Toy.frame = "xch11d71bb3201cc" /\
  last (stdout Toy.after) "" = "First address: xch11d71bb3201cc".
Proof.
  split; [exact toy_run|].
  destruct (first_address_pipeline Toy.lib Toy.world Toy.frame Toy.after toy_run)
    as (_ & _ & K & A & _ & O).
  split; [exact K | split; [exact A | exact O]].
Defined.

Lemma output_lines_in_order_witness :
  run (generate_xch_key Toy.lib) Toy.world = (inr Toy.frame, Toy.after) /\
  stdout Toy.after =
    ["Generating XCH key..."; "Mnemonic: 2a2a"; "Private Key: 0132aa";
     "Public Key: <G1Element cc0132aa>"; "First address: xch11d71bb3201cc"] /\
  run (generate_xch_key Toy.lib) Toy.dry = (inl RandomnessUnavailable, Toy.after_dry) /\
  (stdout Toy.after_dry = ["Generating XCH key..."] \/
   exists mnemonic,
     stdout Toy.after_dry = ["Generating XCH key..."; ("Mnemonic: " ++ mnemonic)%string]).
Proof.
  split; [exact toy_run|]. split.
  - exact (proj1 (proj1 (output_lines_in_order Toy.lib Toy.world)
                    Toy.frame Toy.after toy_run)).
  - split; [reflexivity|].
    exact (proj2 (output_lines_in_order Toy.lib Toy.dry) RandomnessUnavailable
             Toy.after_dry eq_refl).
Defined.


(** The path on the key: with a derivation that marks the key with
    the path it was given, the key printed and the key kept end in
    [5d fc 07 00], the four indices modulo 256. *)
Lemma marked_run :
  run (generate_xch_key Marked.lib) Marked.world = (inr Marked.frame, Marked.after).
Proof. reflexivity. Defined.

Lemma derivation_path_constant_witness :
  run (generate_xch_key Marked.lib) Marked.world = (inr Marked.frame, Marked.after) /\
  Marked.path_mark [12381; 8444; 7; 0] = [x5d; xfc; x07; x00]%byte /\
  fst (run (mnemonic_to_validator_pk Marked.lib "3c91") Marked.world) =
    inr [x01; x33; x5d; xfc; x07; x00]%byte /\
  private_key Marked.frame = [x01; x33; x5d; xfc; x07; x00]%byte /\
  nth_error (new_lines Marked.world Marked.after) 2 =
    Some "Private Key: 01335dfc0700".
Proof.
  split; [exact marked_run|]. split; [reflexivity|].
  destruct (derivation_path_constant Marked.lib Marked.world "3c91")
    as (V & G & _ & _).
  split; [exact V|]. exact (proj2 G).
Defined.


Lemma first_address_ignores_validator_path_witness :
  run (generate_xch_key Toy.lib) Toy.world = (inr Toy.frame, Toy.after) /\
  run (generate_xch_key Toy.lib') Toy.world' = (inr Toy.frame', Toy.after') /\
  mnemonic Toy.frame = mnemonic Toy.frame' /\
  private_key Toy.frame <> private_key Toy.frame' /\
  first_address Toy.frame = first_address Toy.frame' /\
  last (stdout Toy.after') "" = last (stdout Toy.after) "".
Proof.
  split; [exact toy_run|]. split; [exact toy_run'|]. split; [reflexivity|].
  split; [discriminate|].
  destruct (first_address_ignores_validator_path Toy.lib
              (_derive_path Toy.lib) (fun sk path => sk)
              Toy.world Toy.world' Toy.frame Toy.frame' Toy.after Toy.after'
              toy_run toy_run' eq_refl)
    as (_ & A & _ & _ & O).
  split; [exact A | exact O].
Defined.

(** ** Bit strings *)

Module BitsFacts.

Import Bits.

Lemma value_snoc bs b : value (bs ++ [b]) = 2 * value bs + Z.b2z b.
Proof. unfold value. rewrite fold_left_app. reflexivity. Qed.

Lemma value_app a b : value (a ++ b) = value a * 2 ^ Z.of_nat (length b) + value b.
Proof.
  induction b as [|x b IH] using rev_ind.
  - rewrite app_nil_r. cbn [length Z.of_nat]. change (value []) with 0. lia.
  - rewrite app_assoc, !value_snoc, IH, length_app. cbn [length].
    rewrite Nat.add_1_r, Nat2Z.inj_succ, Z.pow_succ_r by lia. lia.
Qed.

Lemma value_bound bs : 0 <= value bs < 2 ^ Z.of_nat (length bs).
Proof.
  induction bs as [|x bs IH] using rev_ind.
  - change (value []) with 0. cbn. lia.
  - rewrite value_snoc, length_app. cbn [length].
    rewrite Nat.add_1_r, Nat2Z.inj_succ, Z.pow_succ_r by lia.
    destruct x; cbn [Z.b2z]; lia.
Qed.

Lemma length_digits w v : length (digits w v) = w.
Proof.
  revert v. induction w as [|w IH]; intros v; [reflexivity|].
  cbn [digits]. rewrite length_app, IH. cbn. lia.
Qed.

Lemma value_digits w v : 0 <= v < 2 ^ Z.of_nat w -> value (digits w v) = v.
Proof.
  revert v. induction w as [|w IH]; intros v Hv.
  - cbn in *. unfold value. cbn. lia.
  - cbn [digits]. rewrite value_snoc.
    rewrite Nat2Z.inj_succ, Z.pow_succ_r in Hv by lia.
    pose proof (Z.div2_odd v) as E.
    rewrite IH; [lia|]. rewrite E in Hv. destruct (Z.odd v); cbn [Z.b2z] in *; lia.
Qed.

Lemma digits_value bs : digits (length bs) (value bs) = bs.
Proof.
  induction bs as [|x bs IH] using rev_ind; [reflexivity|].
  rewrite length_app. cbn [length]. rewrite Nat.add_1_r. cbn [digits].
  rewrite value_snoc.
  replace (Z.div2 (2 * value bs + Z.b2z x)) with (value bs).
  2:{ rewrite Z.div2_div. destruct x; cbn [Z.b2z].
      - apply Z.div_unique with (r := 1); lia.
      - apply Z.div_unique with (r := 0); lia. }
  rewrite IH. f_equal. f_equal.
  rewrite Z.add_comm, Z.odd_add_mul_2. destruct x; reflexivity.
Qed.

(** The zero string. *)
Lemma value_repeat_false n : value (repeat false n) = 0.
Proof.
  induction n as [|n IH]; [reflexivity|].
  cbn [repeat]. rewrite repeat_cons, value_snoc, IH. reflexivity.
Qed.

Lemma value_zero bs : value bs = 0 -> bs = repeat false (length bs).
Proof.
  intros H. rewrite <- (digits_value bs), H.
  rewrite length_digits. clear. induction (length bs) as [|n IH]; [reflexivity|].
  cbn [digits]. change (Z.div2 0) with 0. rewrite IH. cbn. symmetry. apply repeat_cons.
Qed.

Lemma app_inj_length {A} (a a' b b' : list A) :
  length a = length a' -> (a ++ b = a' ++ b')%list -> a = a' /\ b = b'.
Proof.
  revert a'. induction a as [|x a IH]; intros [|y a'] L E; try discriminate.
  - now split.
  - cbn in E. injection E as -> E. injection L as L.
    destruct (IH a' L E) as [-> ->]. now split.
Qed.

(** A stream of [w]-bit numbers determines the numbers. *)
Lemma stream_inj w a b :
  Forall (fun v => 0 <= v < 2 ^ Z.of_nat w) a ->
  Forall (fun v => 0 <= v < 2 ^ Z.of_nat w) b ->
  length a = length b ->
  stream w a = stream w b -> a = b.
Proof.
  intros Ha. revert b. induction Ha as [|x a Hx Ha IH]; intros b Hb L E.
  - destruct b; [reflexivity|discriminate].
  - destruct b as [|y b]; [discriminate|].
    inversion Hb as [|? ? Hy Hb']; subst.
    unfold stream in E. cbn [flat_map] in E.
    apply app_inj_length in E; [|now rewrite !length_digits].
    destruct E as [E1 E2].
    f_equal.
    + rewrite <- (value_digits w x Hx), <- (value_digits w y Hy). now rewrite E1.
    + apply IH; auto.
Qed.

Lemma length_stream w vs : length (stream w vs) = (w * length vs)%nat.
Proof.
  induction vs as [|v vs IH]; cbn; [lia|].
  unfold stream in *. rewrite length_app, length_digits, IH. lia.
Qed.

Lemma stream_app w a b : stream w (a ++ b) = (stream w a ++ stream w b)%list.
Proof. apply flat_map_app. Qed.

End BitsFacts.

(** ** [convertbits] regroups a bit string *)

Module ConvertbitsFacts.

Import Bits BitsFacts Bech32m.

Lemma stream_map_value w chunks :
  Forall (fun c => length c = w) chunks ->
  stream w (map value chunks) = concat chunks.
Proof.
  induction 1 as [|c chunks Hc _ IH]; [reflexivity|].
  unfold stream in *. cbn. rewrite IH. f_equal.
  rewrite <- Hc. apply digits_value.
Qed.

Lemma map_value_bound w chunks :
  Forall (fun c => length c = w) chunks ->
  Forall (fun v => 0 <= v < 2 ^ Z.of_nat w) (map value chunks).
Proof.
  induction 1 as [|c chunks Hc _ IH]; constructor; [|assumption].
  rewrite <- Hc. apply value_bound.
Qed.

Lemma length_concat_chunks w (chunks : list (list bool)) :
  Forall (fun c => length c = w) chunks ->
  length (concat chunks) = (w * length chunks)%nat.
Proof.
  induction 1 as [|c chunks Hc _ IH]; cbn; [lia|].
  rewrite length_app, IH, Hc. lia.
Qed.

(** Arithmetic of the accumulator. *)

Lemma pow2_pos n : 0 <= n -> 0 < 2 ^ n.
Proof. intros. apply Z.pow_pos_nonneg; lia. Qed.

Lemma split_mod acc r t vc vr :
  0 <= r -> 0 <= t -> 0 <= vr < 2 ^ r -> 0 <= vc < 2 ^ t ->
  acc mod 2 ^ (t + r) = vc * 2 ^ r + vr ->
  (acc / 2 ^ r) mod 2 ^ t = vc /\ acc mod 2 ^ r = vr.
Proof.
  intros Hr Ht Hvr Hvc E.
  pose proof (pow2_pos r Hr) as Pr. pose proof (pow2_pos t Ht) as Pt.
  rewrite Z.add_comm, Z.pow_add_r in E by lia.
  rewrite Z.rem_mul_r in E by lia.
  pose proof (Z.mod_pos_bound acc (2 ^ r) Pr) as B1.
  pose proof (Z.mod_pos_bound (acc / 2 ^ r) (2 ^ t) Pt) as B2.
  assert ((acc / 2 ^ r) mod 2 ^ t = vc) by nia.
  split; [assumption|]. nia.
Qed.

Lemma land_ones_sub1 a n : 0 <= n -> Z.land a (Z.shiftl 1 n - 1) = a mod 2 ^ n.
Proof.
  intros Hn. rewrite <- Z.land_ones by assumption. reflexivity.
Qed.

Lemma testbit_small v f n : 0 <= v < 2 ^ f -> f <= n -> Z.testbit v n = false.
Proof.
  intros Hv Hn. destruct (Z.eq_dec v 0) as [->|]; [apply Z.bits_0|].
  apply Z.bits_above_log2; [lia|].
  apply Z.lt_le_trans with f; [|assumption].
  apply Z.log2_lt_pow2; lia.
Qed.

Lemma lor_shiftl_small a f v :
  0 <= f -> 0 <= v < 2 ^ f -> Z.lor (Z.shiftl a f) v = a * 2 ^ f + v.
Proof.
  intros Hf Hv.
  assert (L : Z.land (Z.shiftl a f) v = 0).
  { apply Z.bits_inj'; intros n Hn. rewrite Z.land_spec, Z.bits_0.
    destruct (Z.lt_ge_cases n f).
    - rewrite Z.shiftl_spec_low by lia. reflexivity.
    - rewrite (testbit_small v f n) by assumption. apply andb_false_r. }
  rewrite <- Z.lxor_lor, <- Z.add_nocarry_lxor by exact L.
  rewrite Z.shiftl_mul_pow2 by lia. reflexivity.
Qed.

Lemma push_mod acc b f v W :
  0 <= b -> 0 <= f -> b + f <= W -> 0 <= v < 2 ^ f ->
  ((acc * 2 ^ f + v) mod 2 ^ W) mod 2 ^ (b + f) = (acc mod 2 ^ b) * 2 ^ f + v.
Proof.
  intros Hb Hf HW Hv.
  pose proof (pow2_pos b Hb) as Pb. pose proof (pow2_pos f Hf) as Pf.
  rewrite Z.mod_mod_divide.
  - rewrite Z.pow_add_r by lia.
    pose proof (Z.mod_pos_bound acc (2 ^ b) Pb) as B.
    symmetry. apply Z.mod_unique with (q := acc / 2 ^ b); [left; nia|].
    pose proof (Z.div_mod acc (2 ^ b)). nia.
  - exists (2 ^ (W - (b + f))). rewrite <- Z.pow_add_r by lia. f_equal. lia.
Qed.

Section Regroup.

(** From [f]-bit numbers to [t]-bit numbers. *)
Variables f t : nat.
Hypothesis f_pos : (0 < f)%nat.
Hypothesis t_pos : (0 < t)%nat.

Let maxv := Z.shiftl 1 (Z.of_nat t) - 1.
Let max_acc := Z.shiftl 1 (Z.of_nat f + Z.of_nat t - 1) - 1.

(** The inner loop: of the bits held in [acc] it writes out the
    whole chunks, and holds on to fewer than [t] bits. *)
Lemma drain_spec acc fuel : forall chunks pending,
  (length pending <= fuel)%nat ->
  holds acc pending ->
  exists chunks' pending',
    convertbits_drain fuel acc (Z.of_nat (length pending)) (Z.of_nat t) maxv
      (map value chunks)
    = (Z.of_nat (length pending'), map value (chunks ++ chunks')%list) /\
    Forall (fun c => length c = t) chunks' /\
    (concat chunks' ++ pending')%list = pending /\
    (length pending' < t)%nat /\
    holds acc pending'.
Proof.
  induction fuel as [|fuel IH]; intros chunks pending Hfuel Hacc.
  - destruct pending; [|cbn in Hfuel; lia].
    exists [], []. cbn. rewrite app_nil_r. repeat split; auto.
  - cbn [convertbits_drain].
    destruct (Z.leb_spec (Z.of_nat t) (Z.of_nat (length pending))) as [Hle|Hlt].
    + pose proof (firstn_skipn t pending) as Hsplit.
      set (c := firstn t pending) in *. set (rest := skipn t pending) in *.
      assert (Hc : length c = t) by (subst c; rewrite length_firstn; lia).
      assert (Hrest : Z.of_nat (length pending) - Z.of_nat t = Z.of_nat (length rest)).
      { subst rest. rewrite length_skipn. lia. }
      rewrite Hrest.
      unfold holds in Hacc.
      pose proof (value_app c rest) as Hv. rewrite Hsplit in Hv. rewrite Hv in Hacc.
      replace (Z.of_nat (length pending))
        with (Z.of_nat t + Z.of_nat (length rest)) in Hacc by lia.
      apply split_mod in Hacc; try lia; try apply value_bound.
      2:{ pose proof (value_bound c) as Bc. rewrite Hc in Bc. exact Bc. }
      destruct Hacc as [Hout Hrem].
      replace (Z.land (Z.shiftr acc (Z.of_nat (length rest))) maxv) with (value c).
      2:{ subst maxv. rewrite land_ones_sub1, Z.shiftr_div_pow2 by lia. now symmetry. }
      replace (map value chunks ++ [value c])%list with (map value (chunks ++ [c])%list)
        by (rewrite map_app; reflexivity).
      destruct (IH (chunks ++ [c])%list rest) as (chunks' & pending' & E & F & C & L & A).
      { subst rest. rewrite length_skipn. lia. }
      { exact Hrem. }
      exists (c :: chunks'), pending'. rewrite E, <- app_assoc. cbn [app].
      repeat split; auto.
      cbn [concat]. rewrite <- app_assoc, C. exact Hsplit.
    + exists [], pending. cbn. rewrite app_nil_r. repeat split; auto. lia.
Qed.

(** The outer loop: the chunks written out and the bits held are the
    bits read. *)
Lemma loop_spec data : forall acc chunks pending,
  Forall (in_range f) data ->
  (length pending < t)%nat ->
  holds acc pending ->
  exists acc' chunks' pending',
    convertbits_loop data (Z.of_nat f) (Z.of_nat t) maxv max_acc acc
      (Z.of_nat (length pending)) (map value chunks)
    = Some (acc', Z.of_nat (length pending'), map value (chunks ++ chunks')%list) /\
    Forall (fun c => length c = t) chunks' /\
    (concat chunks' ++ pending')%list = (pending ++ stream f data)%list /\
    (length pending' < t)%nat /\
    holds acc' pending'.
Proof.
  induction data as [|v data IH]; intros acc chunks pending Hdata Hlen Hacc.
  - exists acc, [], pending. cbn. rewrite !app_nil_r. repeat split; auto.
  - inversion Hdata as [|? ? Hv Hdata']; subst. unfold in_range in Hv.
    cbn [convertbits_loop].
    replace (v <? 0) with false by (symmetry; apply Z.ltb_ge; lia).
    rewrite Z.shiftr_div_pow2, Z.div_small, Z.eqb_refl by lia. cbn [orb negb].
    set (acc1 := Z.land (Z.lor (Z.shiftl acc (Z.of_nat f)) v) max_acc).
    set (pending1 := (pending ++ digits f v)%list).
    assert (Hlen1 : Z.of_nat (length pending) + Z.of_nat f = Z.of_nat (length pending1)).
    { subst pending1. rewrite length_app, length_digits. lia. }
    assert (Hacc1 : holds acc1 pending1).
    { unfold holds. rewrite <- Hlen1. subst acc1 pending1 max_acc.
      rewrite land_ones_sub1, lor_shiftl_small by lia.
      rewrite push_mod by lia.
      rewrite value_app, length_digits, value_digits by assumption.
      unfold holds in Hacc. now rewrite Hacc. }
    rewrite Hlen1, Nat2Z.id.
    destruct (drain_spec acc1 (length pending1) chunks pending1
                (Nat.le_refl _) Hacc1)
      as (chunks1 & pending2 & E & F1 & C1 & L1 & A1).
    rewrite E.
    destruct (IH acc1 (chunks ++ chunks1)%list pending2 Hdata' L1 A1)
      as (acc' & chunks2 & pending' & E2 & F2 & C2 & L2 & A2).
    exists acc', (chunks1 ++ chunks2)%list, pending'.
    rewrite E2, <- app_assoc. repeat split; auto.
    + apply Forall_app; split; assumption.
    + rewrite concat_app, <- app_assoc, C2, app_assoc, C1.
      subst pending1. cbn [stream flat_map]. unfold stream.
      now rewrite <- app_assoc.
Qed.

(** What [convertbits] returns, with and without padding. *)
Lemma convertbits_spec data pad :
  Forall (in_range f) data ->
  exists chunks pending,
    Forall (fun c => length c = t) chunks /\
    (concat chunks ++ pending)%list = stream f data /\
    (length pending < t)%nat /\
    convertbits data (Z.of_nat f) (Z.of_nat t) pad =
      if pad then
        Some (map value
                (chunks ++ match pending with
                           | [] => []
                           | _ :: _ =>
                               [(pending ++ repeat false (t - length pending))%list]
                           end)%list)
      else if (f <=? length pending)%nat || negb (value pending =? 0) then None
           else Some (map value chunks).
Proof.
  intros Hdata.
  destruct (loop_spec data 0 [] [] Hdata t_pos eq_refl)
    as (acc & chunks & pending & E & F & C & L & A).
  exists chunks, pending. repeat split; auto.
  unfold convertbits. fold maxv max_acc.
  change 0 with (Z.of_nat (@length bool [])) at 2.
  change (@nil Z) with (map value []). rewrite E. cbn [app].
  set (b := Z.of_nat (length pending)).
  assert (Hshift : Z.land (Z.shiftl acc (Z.of_nat t - b)) maxv
                   = value pending * 2 ^ (Z.of_nat t - b)).
  { subst maxv. rewrite land_ones_sub1, Z.shiftl_mul_pow2 by lia.
    replace (2 ^ Z.of_nat t) with (2 ^ b * 2 ^ (Z.of_nat t - b)).
    2:{ rewrite <- Z.pow_add_r by lia. f_equal. lia. }
    rewrite Z.mul_mod_distr_r.
    - unfold holds in A. fold b in A. now rewrite A.
    - apply Z.pow_nonzero; lia.
    - apply Z.pow_nonzero; lia. }
  rewrite Hshift. destruct pad.
  - destruct pending as [|x pending'] eqn:Ep.
    + cbn. now rewrite app_nil_r.
    + replace (b =? 0) with false by (symmetry; apply Z.eqb_neq; subst b; cbn; lia).
      rewrite map_app. cbn [map]. do 3 f_equal.
      rewrite value_app, repeat_length, value_repeat_false.
      subst b. rewrite Nat2Z.inj_sub by lia. lia.
  - replace (Z.of_nat f <=? b) with (f <=? length pending)%nat.
    2:{ subst b. destruct (Nat.leb_spec f (length pending));
        symmetry; [apply Z.leb_le | apply Z.leb_gt]; lia. }
    replace (value pending * 2 ^ (Z.of_nat t - b) =? 0) with (value pending =? 0).
    2:{ assert (0 < 2 ^ (Z.of_nat t - b)) by (apply pow2_pos; lia).
        destruct (Z.eqb_spec (value pending) 0) as [->|N]; symmetry.
        - apply Z.eqb_eq. lia.
        - apply Z.eqb_neq. nia. }
    reflexivity.
Qed.

End Regroup.

(** Bytes to 5-bit groups and back. *)
Lemma convertbits_round_trip (ints : list Z) :
  Forall (in_range 8) ints ->
  exists data,
    convertbits ints 8 5 true = Some data /\
    Forall (in_range 5) data /\
    (5 * length data < 8 * length ints + 5)%nat /\
    (8 * length ints <= 5 * length data)%nat /\
    convertbits data 5 8 false = Some ints.
Proof.
  intros Hints.
  destruct (convertbits_spec 8 5 ltac:(lia) ltac:(lia) ints true Hints)
    as (chunks & pending & F & C & L & E).
  change (Z.of_nat 8) with 8 in E. change (Z.of_nat 5) with 5 in E.
  set (p := match pending with [] => 0%nat | _ :: _ => (5 - length pending)%nat end).
  set (all := (chunks ++ match pending with
                         | [] => []
                         | _ :: _ => [(pending ++ repeat false (5 - length pending))%list]
                         end)%list) in *.
  assert (Fall : Forall (fun c => length c = 5%nat) all).
  { subst all. apply Forall_app. split; [assumption|].
    destruct pending; constructor; [|constructor].
    rewrite length_app, repeat_length. cbn [length] in *. lia. }
  assert (Call : concat all = (stream 8 ints ++ repeat false p)%list).
  { subst all p. rewrite concat_app, <- C. destruct pending.
    - cbn. now rewrite !app_nil_r.
    - cbn [concat]. now rewrite app_nil_r, app_assoc. }
  assert (Hp : (p < 5)%nat) by (subst p; destruct pending; cbn [length] in *; lia).
  pose proof (map_value_bound 5 all Fall) as Rdata.
  exists (map value all). split; [exact E|]. split; [exact Rdata|].
  pose proof (length_concat_chunks 5 all Fall) as Lall.
  rewrite Call, length_app, length_stream, repeat_length in Lall.
  rewrite length_map. split; [lia|]. split; [lia|].
  destruct (convertbits_spec 5 8 ltac:(lia) ltac:(lia) (map value all) false Rdata)
    as (chunks' & pending' & F' & C' & L' & E').
  change (Z.of_nat 8) with 8 in E'. change (Z.of_nat 5) with 5 in E'.
  rewrite E'. rewrite (stream_map_value 5 all Fall), Call in C'.
  pose proof (length_concat_chunks 8 chunks' F') as Lc.
  assert (Len : length (concat chunks' ++ pending')%list
                = length (stream 8 ints ++ repeat false p)%list) by now rewrite C'.
  rewrite !length_app, length_stream, repeat_length, Lc in Len.
  apply app_inj_length in C'; [|rewrite Lc, length_stream; lia].
  destruct C' as [Cc Cp].
  assert (Hv : value pending' = 0) by (rewrite Cp; apply value_repeat_false).
  rewrite Hv. cbn [Z.eqb negb orb].
  replace (5 <=? length pending')%nat with false.
  2:{ symmetry. apply Nat.leb_gt. rewrite Cp, repeat_length. exact Hp. }
  cbn [orb]. f_equal.
  apply (stream_inj 8).
  - apply map_value_bound. exact F'.
  - exact Hints.
  - rewrite length_map. lia.
  - rewrite (stream_map_value 8 chunks' F'). exact Cc.
Qed.

End ConvertbitsFacts.

(** ** The checksum [bech32_create_checksum] makes is the one
    [bech32_verify_checksum] takes *)

Module ChecksumFacts.

Import Bits BitsFacts ConvertbitsFacts Bech32m Bech32mAux.

Lemma polymod_round_eq chk v :
  polymod_round chk v =
    fold_left (fun c i => Z.lxor c (mask (Z.shiftr chk 25) i)) (seq 0 5)
      (Z.lxor (Z.shiftl (Z.land chk 0x1ffffff) 5) v).
Proof. reflexivity. Qed.

Lemma mask_testbit top i :
  mask top i = if Z.testbit top (Z.of_nat i) then nth i generator 0 else 0.
Proof.
  unfold mask. rewrite Z.testbit_odd.
  change 1 with (Z.ones 1). rewrite Z.land_ones by lia.
  change (2 ^ 1) with 2. rewrite <- Z.bit0_mod, Z.bit0_odd.
  destruct (Z.odd _); reflexivity.
Qed.

Lemma mask_lxor a b i : mask (Z.lxor a b) i = Z.lxor (mask a i) (mask b i).
Proof.
  rewrite !mask_testbit, Z.lxor_spec.
  destruct (Z.testbit a _), (Z.testbit b _); cbn [xorb].
  - now rewrite Z.lxor_nilpotent.
  - now rewrite Z.lxor_0_r.
  - now rewrite Z.lxor_0_l.
  - reflexivity.
Qed.

Lemma lxor_interchange a b c d :
  Z.lxor (Z.lxor a b) (Z.lxor c d) = Z.lxor (Z.lxor a c) (Z.lxor b d).
Proof.
  rewrite !Z.lxor_assoc. f_equal.
  rewrite <- !Z.lxor_assoc. f_equal. apply Z.lxor_comm.
Qed.

Lemma fold_mask_lxor (ta tb : Z) l : forall a b,
  fold_left (fun c i => Z.lxor c (mask (Z.lxor ta tb) i)) l (Z.lxor a b) =
  Z.lxor (fold_left (fun c i => Z.lxor c (mask ta i)) l a)
         (fold_left (fun c i => Z.lxor c (mask tb i)) l b).
Proof.
  induction l as [|i l IH]; intros a b; [reflexivity|].
  cbn [fold_left]. rewrite mask_lxor, lxor_interchange. apply IH.
Qed.

Lemma shiftl_land_lxor a b m n :
  Z.shiftl (Z.land (Z.lxor a b) m) n =
  Z.lxor (Z.shiftl (Z.land a m) n) (Z.shiftl (Z.land b m) n).
Proof.
  rewrite <- Z.shiftl_lxor. f_equal.
  apply Z.bits_inj'; intros k Hk.
  rewrite Z.lxor_spec, !Z.land_spec, Z.lxor_spec.
  destruct (Z.testbit a k), (Z.testbit b k), (Z.testbit m k); reflexivity.
Qed.

(** A round is linear over exclusive or. *)
Lemma polymod_round_lxor a b x y :
  polymod_round (Z.lxor a b) (Z.lxor x y) =
  Z.lxor (polymod_round a x) (polymod_round b y).
Proof.
  rewrite !polymod_round_eq, Z.shiftr_lxor, shiftl_land_lxor, lxor_interchange.
  apply fold_mask_lxor.
Qed.

Lemma fold_round_lxor xs : forall a b,
  fold_left polymod_round xs (Z.lxor a b) =
  Z.lxor (fold_left polymod_round (map (fun _ => 0) xs) a)
         (fold_left polymod_round xs b).
Proof.
  induction xs as [|x xs IH]; intros a b; [reflexivity|].
  cbn [fold_left map]. rewrite <- IH. f_equal.
  rewrite <- polymod_round_lxor, Z.lxor_0_l. reflexivity.
Qed.

(** Bounds. *)
Lemma lxor_bound n a b :
  0 <= n -> 0 <= a < 2 ^ n -> 0 <= b < 2 ^ n -> 0 <= Z.lxor a b < 2 ^ n.
Proof.
  intros Hn Ha Hb.
  assert (N : 0 <= Z.lxor a b) by (apply Z.lxor_nonneg; lia).
  split; [assumption|].
  destruct (Z.eq_dec (Z.lxor a b) 0) as [->|Nz]; [apply pow2_pos; lia|].
  assert (Pn : 0 < n).
  { destruct (Z.eq_dec n 0) as [->|]; [|lia].
    change (2 ^ 0) with 1 in *.
    assert (a = 0) by lia. assert (b = 0) by lia. subst. now cbn in Nz. }
  apply Z.log2_lt_pow2; [lia|].
  eapply Z.le_lt_trans; [apply Z.log2_lxor; lia|].
  apply Z.max_lub_lt.
  - destruct (Z.eq_dec a 0) as [->|]; [cbn; lia|]. apply Z.log2_lt_pow2; lia.
  - destruct (Z.eq_dec b 0) as [->|]; [cbn; lia|]. apply Z.log2_lt_pow2; lia.
Qed.

Lemma mask_bound top i : 0 <= mask top i < 2 ^ 30.
Proof.
  unfold mask. destruct (_ =? 0); [lia|].
  do 5 (destruct i as [|i]; [cbn; lia|]). destruct i; cbn; lia.
Qed.

Lemma fold_mask_bound top l : forall c,
  0 <= c < 2 ^ 30 ->
  0 <= fold_left (fun c i => Z.lxor c (mask top i)) l c < 2 ^ 30.
Proof.
  induction l as [|i l IH]; intros c Hc; [exact Hc|].
  cbn [fold_left]. apply IH. apply lxor_bound; [lia|assumption|apply mask_bound].
Qed.

Lemma polymod_round_bound chk v :
  0 <= v < 2 ^ 30 -> 0 <= polymod_round chk v < 2 ^ 30.
Proof.
  intros Hv. rewrite polymod_round_eq. apply fold_mask_bound.
  apply lxor_bound; [lia| |assumption].
  change 0x1ffffff with (Z.ones 25). rewrite Z.land_ones, Z.shiftl_mul_pow2 by lia.
  pose proof (Z.mod_pos_bound chk (2 ^ 25) ltac:(lia)). lia.
Qed.

Lemma fold_round_bound xs : forall c,
  0 <= c < 2 ^ 30 ->
  Forall (fun v => 0 <= v < 2 ^ 30) xs ->
  0 <= fold_left polymod_round xs c < 2 ^ 30.
Proof.
  induction xs as [|x xs IH]; intros c Hc Hxs; [exact Hc|].
  inversion Hxs; subst. cbn [fold_left]. apply IH; [|assumption].
  now apply polymod_round_bound.
Qed.

(** A round on a short word appends five bits. *)
Lemma polymod_round_small c d :
  0 <= c < 2 ^ 25 -> 0 <= d < 2 ^ 5 -> polymod_round c d = c * 32 + d.
Proof.
  intros Hc Hd. rewrite polymod_round_eq.
  rewrite Z.shiftr_div_pow2, Z.div_small by lia.
  change 0x1ffffff with (Z.ones 25). rewrite Z.land_ones, Z.mod_small by lia.
  cbn [seq fold_left]. unfold mask. cbn -[Z.lxor Z.shiftl].
  rewrite !Z.lxor_0_r.
  assert (L : Z.land (Z.shiftl c 5) d = 0).
  { apply Z.bits_inj'; intros n Hn. rewrite Z.land_spec, Z.bits_0.
    destruct (Z.lt_ge_cases n 5).
    - rewrite Z.shiftl_spec_low by lia. reflexivity.
    - rewrite (testbit_small d 5 n) by assumption. apply andb_false_r. }
  rewrite <- Z.add_nocarry_lxor by exact L.
  rewrite Z.shiftl_mul_pow2 by lia. reflexivity.
Qed.

(** The six checksum symbols of a 30-bit word fold back to the word. *)
Lemma fold_round_symbols q :
  0 <= q < 2 ^ 30 ->
  fold_left polymod_round
    (map (fun i => Z.land (Z.shiftr q (5 * (5 - Z.of_nat i))) 31) (seq 0 6)) 0 = q.
Proof.
  intros Hq. cbn [seq map fold_left]. cbn [Z.of_nat Pos.of_succ_nat Pos.succ].
  change 31 with (Z.ones 5). rewrite !Z.land_ones, !Z.shiftr_div_pow2 by lia.
  cbn [Z.sub Z.mul Z.add Z.opp Z.pos_sub Pos.mul Pos.add Pos.succ Pos.pred_double
       Z.double Z.succ_double Z.pred_double Pos.pred_N Pos.sub Pos.sub_mask].
  change (2 ^ 30) with 1073741824 in *. change (2 ^ 25) with 33554432.
  change (2 ^ 20) with 1048576. change (2 ^ 15) with 32768.
  change (2 ^ 10) with 1024. change (2 ^ 5) with 32. change (2 ^ 0) with 1.
  pose proof (Z.mod_pos_bound (q / 33554432) 32 ltac:(lia)) as B0.
  pose proof (Z.mod_pos_bound (q / 1048576) 32 ltac:(lia)) as B1.
  pose proof (Z.mod_pos_bound (q / 32768) 32 ltac:(lia)) as B2.
  pose proof (Z.mod_pos_bound (q / 1024) 32 ltac:(lia)) as B3.
  pose proof (Z.mod_pos_bound (q / 32) 32 ltac:(lia)) as B4.
  pose proof (Z.mod_pos_bound (q / 1) 32 ltac:(lia)) as B5.
  assert (E : forall c d, 0 <= c < 33554432 -> 0 <= d < 32 ->
                          polymod_round c d = c * 32 + d).
  { intros c d Hc Hd. apply polymod_round_small; [exact Hc | exact Hd]. }
  repeat match goal with
         | |- context [polymod_round ?c ?d] => rewrite (E c d) by lia
         end.
  clear E B0 B1 B2 B3 B4 B5.
  Z.div_mod_to_equations. lia.
Qed.

Lemma ord_bound c : 0 <= ord c < 256.
Proof.
  unfold ord. pose proof (N_ascii_bounded c). lia.
Qed.

Lemma hrp_expand_bound hrp :
  Forall (fun v => 0 <= v < 2 ^ 30) (bech32_hrp_expand hrp).
Proof.
  unfold bech32_hrp_expand. rewrite !Forall_app. repeat split.
  - apply Forall_map, Forall_forall. intros c _. pose proof (ord_bound c).
    rewrite Z.shiftr_div_pow2 by lia. change (2 ^ 5) with 32. change (2 ^ 30) with 1073741824.
    Z.div_mod_to_equations. lia.
  - repeat constructor. lia.
  - apply Forall_map, Forall_forall. intros c _.
    change 31 with (Z.ones 5). rewrite Z.land_ones by lia.
    pose proof (Z.mod_pos_bound (ord c) (2 ^ 5) ltac:(lia)). lia.
Qed.

Lemma in_range_5_30 data :
  Forall (in_range 5) data -> Forall (fun v => 0 <= v < 2 ^ 30) data.
Proof.
  apply Forall_impl. unfold in_range. intros v. change (2 ^ Z.of_nat 5) with 32. lia.
Qed.

Lemma create_checksum_range hrp data :
  Forall (in_range 5) (bech32_create_checksum hrp data).
Proof.
  unfold bech32_create_checksum. apply Forall_map, Forall_forall. intros i _.
  unfold in_range. change 31 with (Z.ones 5). rewrite Z.land_ones by lia.
  apply Z.mod_pos_bound. lia.
Qed.

Lemma length_create_checksum hrp data :
  length (bech32_create_checksum hrp data) = 6%nat.
Proof. reflexivity. Qed.

(** The checksum verifies. *)
Lemma create_checksum_verifies hrp data :
  Forall (in_range 5) data ->
  bech32_verify_checksum hrp (data ++ bech32_create_checksum hrp data) = true.
Proof.
  intros Hdata. unfold bech32_verify_checksum. apply Z.eqb_eq.
  unfold bech32_polymod. rewrite app_assoc, fold_left_app.
  set (s := fold_left polymod_round (bech32_hrp_expand hrp ++ data)%list 1).
  assert (Hs : 0 <= s < 2 ^ 30).
  { apply fold_round_bound; [lia|]. apply Forall_app. split.
    - apply hrp_expand_bound.
    - now apply in_range_5_30. }
  unfold bech32_create_checksum, bech32_polymod.
  rewrite fold_left_app. fold s.
  set (p := fold_left polymod_round [0; 0; 0; 0; 0; 0] s).
  assert (Hp : 0 <= p < 2 ^ 30).
  { apply fold_round_bound; [exact Hs|]. repeat constructor; lia. }
  rewrite <- (Z.lxor_0_r s) at 1.
  rewrite fold_round_lxor.
  rewrite fold_round_symbols by (apply lxor_bound; [lia | exact Hp | unfold M; lia]).
  cbn [map seq]. fold p.
  rewrite <- Z.lxor_assoc, Z.lxor_nilpotent, Z.lxor_0_l. reflexivity.
Qed.

End ChecksumFacts.

(** ** The model on the test vectors of the bech32m standard *)

Module Bech32mVectors.

Import Bech32m.

Example valid_upper : bech32_decode "A1LQFN3A" = Some ("a", []).
Proof. vm_compute. reflexivity. Qed.

Example valid_lower : bech32_decode "a1lqfn3a" = Some ("a", []).
Proof. vm_compute. reflexivity. Qed.

Example valid_longest :
  option_map fst
    (bech32_decode
       "an83characterlonghumanreadablepartthatcontainsthetheexcludedcharactersbioandnumber11sg7hg6")
  = Some "an83characterlonghumanreadablepartthatcontainsthetheexcludedcharactersbioandnumber1".
Proof. vm_compute. reflexivity. Qed.

Example valid_all_symbols :
  bech32_decode "abcdef1l7aum6echk45nj3s0wdvt2fg8x9yrzpqzd3ryx"
  = Some ("abcdef", map Z.of_nat (rev (seq 0 32))).
Proof. vm_compute. reflexivity. Qed.

Example valid_separator_in_prefix :
  option_map fst
    (bech32_decode "split1checkupstagehandshakeupstreamerranterredcaperredlc445v")
  = Some "split".
Proof. vm_compute. reflexivity. Qed.

Example valid_question_mark : bech32_decode "?1v759aa" = Some ("?", []).
Proof. vm_compute. reflexivity. Qed.

Example encode_smallest : bech32_encode "a" [] = Some "a1lqfn3a".
Proof. vm_compute. reflexivity. Qed.

Example invalid_mixed_case : bech32_decode "A1lqfn3a" = None.
Proof. vm_compute. reflexivity. Qed.

Example invalid_checksum : bech32_decode "a1lqfn3b" = None.
Proof. vm_compute. reflexivity. Qed.

Example invalid_short_checksum : bech32_decode "in1muywd" = None.
Proof. vm_compute. reflexivity. Qed.

Example invalid_symbol : bech32_decode "mm1crxm3i" = None.
Proof. vm_compute. reflexivity. Qed.

Example invalid_empty_prefix : bech32_decode "1p2gdwpf" = None.
Proof. vm_compute. reflexivity. Qed.

End Bech32mVectors.

(** ** [bech32_decode] reads back what [bech32_encode] writes *)

Module Bech32mFacts.

Import Bits BitsFacts ConvertbitsFacts ChecksumFacts Bech32m Bech32mAux.

Lemma charset_at_spec d :
  0 <= d < 32 ->
  exists c, charset_at d = Some c /\ charset_find c = d /\ payload_char c.
Proof.
  intros Hd.
  assert (H : In d (map Z.of_nat (seq 0 32))).
  { apply in_map_iff. exists (Z.to_nat d). split; [lia|]. apply in_seq. lia. }
  cbn in H.
  repeat (destruct H as [<-|H];
          [eexists; split; [reflexivity|]; split; [reflexivity|];
           repeat split; try reflexivity; try discriminate; cbn; lia |]).
  contradiction.
Qed.

Lemma charset_chars_spec ds :
  Forall (in_range 5) ds ->
  exists cs, charset_chars ds = Some cs /\ map charset_find cs = ds /\
             Forall payload_char cs.
Proof.
  induction 1 as [|d ds Hd _ (cs & E & F & P)].
  - exists []. repeat split. constructor.
  - destruct (charset_at_spec d Hd) as (c & Ec & Fc & Pc).
    exists (c :: cs). cbn [charset_chars map]. rewrite Ec, E, Fc, F.
    repeat split. now constructor.
Qed.

(** Strings as lists of characters. *)
Lemma list_ascii_of_string_app a b :
  list_ascii_of_string (a ++ b) = (list_ascii_of_string a ++ list_ascii_of_string b)%list.
Proof. induction a as [|c a IH]; cbn; [reflexivity|]. now rewrite IH. Qed.

Lemma length_list_ascii_of_string a :
  length (list_ascii_of_string a) = String.length a.
Proof. induction a as [|c a IH]; cbn; [reflexivity|]. now rewrite IH. Qed.

Lemma list_ascii_eqb_refl l : list_ascii_eqb l l = true.
Proof. apply String.eqb_refl. Qed.

(** The pieces of the decoder on a well-formed string. *)
Lemma plain_not_space c : plain_char c -> isspace c = false.
Proof.
  intros [H _]. unfold isspace.
  repeat match goal with
         | |- context [?a <=? ?b] => destruct (Z.leb_spec a b); try lia
         | |- context [?a =? ?b] => destruct (Z.eqb_spec a b); try lia
         end; reflexivity.
Qed.

Lemma lstrip_plain l : Forall plain_char l -> lstrip l = l.
Proof.
  destruct 1 as [|c l Hc _]; [reflexivity|].
  cbn. now rewrite (plain_not_space c Hc).
Qed.

Lemma strip_plain l : Forall plain_char l -> strip l = l.
Proof.
  intros H. unfold strip. rewrite (lstrip_plain l H).
  rewrite lstrip_plain by (now apply Forall_rev).
  apply rev_involutive.
Qed.

Lemma range_check_plain l :
  Forall plain_char l ->
  existsb (fun x => (ord x <? 33) || (126 <? ord x)) l = false.
Proof.
  induction 1 as [|c l [Hc _] _ IH]; [reflexivity|].
  cbn [existsb]. rewrite IH.
  destruct (Z.ltb_spec (ord c) 33), (Z.ltb_spec 126 (ord c)); try lia; reflexivity.
Qed.

Lemma lower_plain l : Forall plain_char l -> map lower_char l = l.
Proof.
  induction 1 as [|c l [_ Hc] _ IH]; [reflexivity|].
  cbn [map]. now rewrite Hc, IH.
Qed.

Lemma rfind_from_none l : forall i found,
  Forall (fun c => c <> "1"%char) l -> rfind_from l i found = found.
Proof.
  induction l as [|c l IH]; intros i found H; [reflexivity|].
  inversion H as [|? ? Hc Hl]; subst. cbn [rfind_from].
  destruct (Ascii.eqb_spec c "1"); [contradiction|]. now apply IH.
Qed.

Lemma rfind_from_last a b : forall i found,
  Forall (fun c => c <> "1"%char) b ->
  rfind_from (a ++ "1"%char :: b) i found = i + Z.of_nat (length a).
Proof.
  induction a as [|c a IH]; intros i found Hb.
  - cbn [app rfind_from length]. rewrite Ascii.eqb_refl.
    rewrite rfind_from_none by assumption. cbn. lia.
  - cbn [app rfind_from length]. rewrite IH by assumption. lia.
Qed.

Lemma hrp_char_plain c : hrp_char c = true -> plain_char c.
Proof.
  unfold hrp_char, plain_char, lower_char. intros H.
  apply andb_prop in H as [H H3]. apply andb_prop in H as [H1 H2].
  apply Z.leb_le in H1. apply Z.leb_le in H2. split; [lia|].
  destruct ((65 <=? ord c) && (ord c <=? 90)); [discriminate|reflexivity].
Qed.

Lemma payload_plain c : payload_char c -> plain_char c.
Proof. intros (_ & _ & L & R). now split. Qed.

(** Decoding an encoding. *)
Lemma bech32_decode_encode hrp data :
  well_formed_prefix hrp = true ->
  Forall (in_range 5) data ->
  (String.length hrp + 7 + length data <= 90)%nat ->
  exists address,
    bech32_encode hrp data = Some address /\
    bech32_decode address = Some (hrp, data).
Proof.
  intros Hwf Hdata Hlen.
  unfold well_formed_prefix in Hwf.
  apply andb_prop in Hwf as [Hwf Hchars]. apply andb_prop in Hwf as [Hlo Hhi].
  apply Nat.leb_le in Hlo. apply Nat.leb_le in Hhi.
  set (lp := list_ascii_of_string hrp) in *.
  assert (Plp : Forall plain_char lp).
  { apply Forall_forall. intros c Hc. apply hrp_char_plain.
    exact (proj1 (forallb_forall _ _) Hchars c Hc). }
  assert (Llp : length lp = String.length hrp) by apply length_list_ascii_of_string.
  set (combined := (data ++ bech32_create_checksum hrp data)%list).
  assert (Hcomb : Forall (in_range 5) combined).
  { apply Forall_app. split; [assumption|apply create_checksum_range]. }
  destruct (charset_chars_spec combined Hcomb) as (cs & E & F & P).
  assert (Lcs : length cs = (length data + 6)%nat).
  { rewrite <- (length_map charset_find cs), F. subst combined.
    now rewrite length_app, length_create_checksum. }
  unfold bech32_encode. fold combined. rewrite E.
  eexists. split; [reflexivity|].
  unfold bech32_decode.
  rewrite !list_ascii_of_string_app, list_ascii_of_string_of_list_ascii.
  fold lp. cbn [list_ascii_of_string app].
  set (l := (lp ++ "1"%char :: cs)%list).
  assert (Pl : Forall plain_char l).
  { apply Forall_app. split; [assumption|]. constructor.
    - split; [cbn; lia|reflexivity].
    - eapply Forall_impl; [|exact P]. apply payload_plain. }
  rewrite (strip_plain l Pl), (range_check_plain l Pl), (lower_plain l Pl).
  rewrite list_ascii_eqb_refl. cbn [negb andb orb].
  assert (Hpos : rfind_1 l = Z.of_nat (length lp)).
  { unfold rfind_1. subst l. rewrite rfind_from_last; [lia|].
    eapply Forall_impl; [|exact P]. now intros c (_ & N & _). }
  rewrite Hpos.
  assert (Ll : length l = (length lp + 1 + length cs)%nat).
  { subst l. rewrite length_app. cbn [length]. lia. }
  replace (Z.of_nat (length lp) <? 1) with false by (symmetry; apply Z.ltb_ge; lia).
  replace (Z.of_nat (length l) <? Z.of_nat (length lp) + 7) with false
    by (symmetry; apply Z.ltb_ge; lia).
  replace (90 <? Z.of_nat (length l)) with false by (symmetry; apply Z.ltb_ge; lia).
  cbn [orb].
  replace (Z.to_nat (Z.of_nat (length lp) + 1)) with (length lp + 1)%nat by lia.
  rewrite Nat2Z.id.
  assert (Htail : skipn (length lp + 1) l = cs).
  { subst l. change ("1"%char :: cs) with (["1"%char] ++ cs)%list.
    rewrite app_assoc.
    replace (length lp + 1)%nat with (length (lp ++ ["1"%char])%list)
      by (rewrite length_app; reflexivity).
    apply skipn_length_app. }
  assert (Hhead : firstn (length lp) l = lp).
  { subst l. rewrite firstn_app, Nat.sub_diag, firstn_all. cbn. apply app_nil_r. }
  rewrite Htail, Hhead.
  replace (forallb in_charset cs) with true.
  2:{ symmetry. apply forallb_forall. intros c Hc.
      exact (proj1 (proj1 (Forall_forall _ _) P c Hc)). }
  cbn [negb]. subst lp. rewrite string_of_list_ascii_of_string, F.
  subst combined. rewrite (create_checksum_verifies hrp data Hdata). cbn [negb].
  rewrite length_app, length_create_checksum, Nat.add_sub.
  rewrite firstn_app, Nat.sub_diag, firstn_all. cbn [firstn]. now rewrite app_nil_r.
Qed.

End Bech32mFacts.

(** ** Addresses of puzzle hashes *)

Module AddressFacts.

Import Bits BitsFacts ConvertbitsFacts ChecksumFacts Bech32mFacts Bech32m Bech32mAux.

Lemma ints_of_bytes_range (h : bytes) : Forall (in_range 8) (ints_of_bytes h).
Proof.
  unfold ints_of_bytes. apply Forall_map, Forall_forall. intros x _.
  unfold in_range. pose proof (Byte.to_N_bounded x). change (2 ^ Z.of_nat 8) with 256. lia.
Qed.

Lemma bytes32_ints_of_bytes (h : bytes) :
  length h = 32%nat -> bytes32 (ints_of_bytes h) = Some h.
Proof.
  intros L. unfold bytes32, ints_of_bytes. rewrite length_map, L. cbn [Nat.eqb andb].
  replace (forallb _ _) with true.
  2:{ symmetry. apply forallb_forall. intros v Hv. apply in_map_iff in Hv as (x & <- & _).
      pose proof (Byte.to_N_bounded x).
      apply andb_true_intro. split; [apply Z.leb_le | apply Z.ltb_lt]; lia. }
  f_equal. rewrite map_map. rewrite <- (map_id h) at 2. apply map_ext. intros x.
  now rewrite N2Z.id, Byte.of_to_N.
Qed.

(** What an address is made of. *)
Lemma encode_puzzle_hash_shape (h : bytes) (prefix : string) :
  exists data cs,
    convertbits (ints_of_bytes h) 8 5 true = Some data /\
    Forall (in_range 5) data /\
    (5 * length data < 8 * length h + 5)%nat /\
    (8 * length h <= 5 * length data)%nat /\
    convertbits data 5 8 false = Some (ints_of_bytes h) /\
    bech32_encode prefix data = Some (prefix ++ "1" ++ string_of_list_ascii cs) /\
    encode_puzzle_hash h prefix = Some (prefix ++ "1" ++ string_of_list_ascii cs) /\
    length cs = (length data + 6)%nat.
Proof.
  destruct (convertbits_round_trip _ (ints_of_bytes_range h))
    as (data & E & R & L1 & L2 & D).
  unfold ints_of_bytes in L1, L2. rewrite length_map in L1, L2.
  assert (Hcomb : Forall (in_range 5) (data ++ bech32_create_checksum prefix data)).
  { apply Forall_app. split; [assumption|apply create_checksum_range]. }
  destruct (charset_chars_spec _ Hcomb) as (cs & Ec & F & _).
  exists data, cs. unfold encode_puzzle_hash, bech32_encode. rewrite E, Ec.
  repeat split; auto.
  rewrite <- (length_map charset_find cs), F, length_app, length_create_checksum.
  reflexivity.
Qed.

Lemma string_app_inj_length (a a' b b' : string) :
  String.length b = String.length b' -> a ++ b = a' ++ b' -> a = a'.
Proof.
  intros L E.
  assert (E' : list_ascii_of_string (a ++ b) = list_ascii_of_string (a' ++ b'))
    by now rewrite E.
  rewrite !list_ascii_of_string_app in E'.
  assert (La : length (list_ascii_of_string a) = length (list_ascii_of_string a')).
  { apply (f_equal (@length _)) in E'. rewrite !length_app in E'.
    rewrite !length_list_ascii_of_string in *. lia. }
  apply app_inj_length in E' as [E' _]; [|exact La].
  rewrite <- (string_of_list_ascii_of_string a), E'.
  apply string_of_list_ascii_of_string.
Qed.

Lemma length_string_of_list_ascii l :
  String.length (string_of_list_ascii l) = length l.
Proof. induction l as [|c l IH]; cbn; [reflexivity|]. now rewrite IH. Qed.

(** C8, as the decoder allows it: the addresses of one 32-byte puzzle
    hash under two different prefixes exist and differ, and the address
    under a prefix that is a well-formed human-readable part (1 to 31
    printable ASCII characters, none upper-case) decodes to the puzzle
    hash. *)
Theorem prefix_sensitivity (h : bytes) (p1 p2 : string) :
  length h = 32%nat ->
  p1 <> p2 ->
  exists a1 a2,
    encode_puzzle_hash h p1 = Some a1 /\
    encode_puzzle_hash h p2 = Some a2 /\
    a1 <> a2 /\
    (well_formed_prefix p1 = true -> decode_puzzle_hash a1 = Some h) /\
    (well_formed_prefix p2 = true -> decode_puzzle_hash a2 = Some h).
Proof.
  intros L N.
  destruct (encode_puzzle_hash_shape h p1)
    as (data1 & cs1 & C1 & R1 & U1 & V1 & D1 & B1 & E1 & L1).
  destruct (encode_puzzle_hash_shape h p2)
    as (data2 & cs2 & C2 & R2 & U2 & V2 & D2 & B2 & E2 & L2).
  assert (data2 = data1) by congruence. subst data2.
  assert (Ld : length data1 = 52%nat) by lia.
  exists (p1 ++ "1" ++ string_of_list_ascii cs1), (p2 ++ "1" ++ string_of_list_ascii cs2).
  split; [exact E1|]. split; [exact E2|]. split.
  - intros E. apply N. apply string_app_inj_length in E; [exact E|].
    cbn [String.append String.length]. rewrite !length_string_of_list_ascii. lia.
  - assert (G : forall p cs,
               bech32_encode p data1 = Some (p ++ "1" ++ string_of_list_ascii cs) ->
               well_formed_prefix p = true ->
               decode_puzzle_hash (p ++ "1" ++ string_of_list_ascii cs) = Some h).
    { intros p cs B W.
      assert (Hlen : (String.length p + 7 + length data1 <= 90)%nat).
      { unfold well_formed_prefix in W.
        apply andb_prop in W as [W _]. apply andb_prop in W as [_ W].
        apply Nat.leb_le in W. lia. }
      destruct (bech32_decode_encode p data1 W R1 Hlen) as (a & Ea & Da).
      rewrite B in Ea. injection Ea as <-.
      unfold decode_puzzle_hash. cbn [String.append] in Da |- *. rewrite Da, D1.
      now apply bytes32_ints_of_bytes. }
    split; [exact (G p1 cs1 B1) | exact (G p2 cs2 B2)].
Qed.

(** C8 as it is stated fails on an upper-case prefix: the address mixes
    cases and the decoder refuses it. *)
Lemma prefix_sensitivity_counterexample :
  "XCH" <> "xch" /\
  length (repeat x00%byte 32) = 32%nat /\
  encode_puzzle_hash (repeat x00%byte 32) "XCH"
    = Some "XCH1qqqqqqqqqqqqqqqqqqqqqqqqqqqqqqqqqqqqqqqqqqqqqqqqqqqqfz8ee2" /\
  decode_puzzle_hash "XCH1qqqqqqqqqqqqqqqqqqqqqqqqqqqqqqqqqqqqqqqqqqqqqqqqqqqqfz8ee2"
    = None.
Proof.
  split; [discriminate|]. split; [reflexivity|]. split; vm_compute; reflexivity.
Qed.

(** The other conditions on the prefix are needed as well: the
    addresses of an empty prefix, of a prefix with a space in it and of
    a prefix of 32 characters encode and do not decode. *)
Example empty_prefix_refused :
  option_map decode_puzzle_hash (encode_puzzle_hash (repeat x00%byte 32) "")
  = Some None.
Proof. vm_compute. reflexivity. Qed.

Example space_in_prefix_refused :
  option_map decode_puzzle_hash (encode_puzzle_hash (repeat x00%byte 32) "x ch")
  = Some None.
Proof. vm_compute. reflexivity. Qed.

Example long_prefix_refused :
  option_map decode_puzzle_hash
    (encode_puzzle_hash (repeat x00%byte 32) "abcdefghijabcdefghijabcdefghijab")
  = Some None.
Proof. vm_compute. reflexivity. Qed.

Lemma prefix_sensitivity_witness :
  length (repeat x00%byte 32) = 32%nat /\
  "xch" <> "txch" /\
  well_formed_prefix "xch" = true /\
  well_formed_prefix "txch" = true /\
  exists a1 a2,
    encode_puzzle_hash (repeat x00%byte 32) "xch" = Some a1 /\
    encode_puzzle_hash (repeat x00%byte 32) "txch" = Some a2 /\
    a1 <> a2 /\
    decode_puzzle_hash a1 = Some (repeat x00%byte 32) /\
    decode_puzzle_hash a2 = Some (repeat x00%byte 32).
Proof.
  split; [reflexivity|]. split; [discriminate|].
  split; [reflexivity|]. split; [reflexivity|].
  destruct (prefix_sensitivity (repeat x00%byte 32) "xch" "txch" eq_refl
              ltac:(discriminate))
    as (a1 & a2 & E1 & E2 & N & D1 & D2).
  exists a1, a2. split; [exact E1|]. split; [exact E2|]. split; [exact N|].
  split; [exact (D1 eq_refl) | exact (D2 eq_refl)].
Defined.

End AddressFacts.

(** ** Mnemonics and entropy *)

Module Bip39Facts.

Import Bits BitsFacts Bip39.

(** Splitting and joining. *)
Lemma split_space_nonempty s : split_space s <> [].
Proof.
  destruct s as [|c s]; cbn; [discriminate|].
  destruct (Ascii.eqb c " "); [discriminate|].
  destruct (split_space s); discriminate.
Qed.

Lemma split_space_word w : no_space w = true -> split_space w = [w].
Proof.
  induction w as [|c w IH]; intros H; [reflexivity|].
  cbn in *. apply andb_prop in H as [Hc Hw].
  destruct (Ascii.eqb c " "); [discriminate|].
  now rewrite (IH Hw).
Qed.

Lemma split_space_app w t :
  no_space w = true -> split_space (w ++ String " " t) = w :: split_space t.
Proof.
  induction w as [|c w IH]; intros H; [reflexivity|].
  cbn in H. apply andb_prop in H as [Hc Hw].
  cbn [String.append split_space].
  destruct (Ascii.eqb c " "); [discriminate|].
  now rewrite (IH Hw).
Qed.

Lemma split_join words :
  words <> [] ->
  Forall (fun w => no_space w = true) words ->
  split_space (join_space words) = words.
Proof.
  induction words as [|w rest IH]; intros N F; [contradiction|].
  inversion F as [|? ? Hw Hrest]; subst.
  destruct rest as [|w2 rest].
  - cbn. now apply split_space_word.
  - cbn [join_space String.append]. rewrite split_space_app by assumption.
    f_equal. apply IH; [discriminate|assumption].
Qed.

(** Options. *)
Lemma all_some_map {A B} (f : A -> option B) (g : A -> B) l :
  (forall x, In x l -> f x = Some (g x)) ->
  all_some (map f l) = Some (map g l).
Proof.
  induction l as [|x l IH]; intros H; [reflexivity|].
  cbn [map all_some]. rewrite (H x (or_introl eq_refl)), IH; [reflexivity|].
  intros y Hy. apply H. now right.
Qed.

(** Slices of a list of chunks of one length. *)
Lemma slice_chunk {A} w (c : list A) rest i :
  length c = w ->
  slice (c ++ rest) (w * S i) (w * S i + w) = slice rest (w * i) (w * i + w).
Proof.
  intros L. unfold slice.
  replace (w * S i + w - w * S i)%nat with (w * i + w - w * i)%nat by lia.
  f_equal. rewrite skipn_app, L.
  replace (w * S i - w)%nat with (w * i)%nat by lia.
  rewrite skipn_all2 by lia. reflexivity.
Qed.

Lemma map_slices {A B} w (g : list A -> B) (chunks : list (list A)) :
  Forall (fun c => length c = w) chunks ->
  map (fun i => g (slice (concat chunks) (w * i) (w * i + w))) (seq 0 (length chunks))
  = map g chunks.
Proof.
  induction 1 as [|c chunks Hc _ IH]; [reflexivity|].
  cbn [length seq map concat]. f_equal.
  - unfold slice. rewrite Nat.mul_0_r. cbn [skipn Nat.add].
    rewrite Nat.sub_0_r, firstn_app, Hc, Nat.sub_diag, firstn_all2 by lia.
    cbn. now rewrite app_nil_r.
  - rewrite <- seq_shift, map_map. rewrite <- IH.
    apply map_ext. intros i. f_equal. now apply slice_chunk.
Qed.

(** Cutting a list into [n] slices of length [w]. *)
Lemma slices_spec {A} w n : forall (l : list A),
  length l = (n * w)%nat ->
  exists chunks,
    concat chunks = l /\ Forall (fun c => length c = w) chunks /\
    length chunks = n.
Proof.
  induction n as [|n IH]; intros l L.
  - exists []. destruct l; [repeat split; constructor|discriminate].
  - destruct (IH (skipn w l)) as (chunks & C & F & N).
    { rewrite length_skipn. lia. }
    exists (firstn w l :: chunks). cbn [concat length]. rewrite C, N.
    repeat split.
    + apply firstn_skipn.
    + constructor; [|assumption]. rewrite length_firstn. lia.
Qed.

Lemma length_bits_of_bytes b : length (bits_of_bytes b) = (8 * length b)%nat.
Proof. unfold bits_of_bytes. now rewrite length_stream, length_map. Qed.

Lemma bytes_of_bits_of_bytes b : bytes_of_bits (bits_of_bytes b) = Some b.
Proof.
  unfold bytes_of_bits. rewrite length_bits_of_bytes.
  rewrite Nat.mul_comm, Nat.Div0.mod_mul, Nat.div_mul by lia. cbn [Nat.eqb].
  f_equal. unfold bits_of_bytes, stream. rewrite flat_map_concat_map.
  set (chunks := map (digits 8) (map (fun x => Z.of_N (Byte.to_N x)) b)).
  assert (F : Forall (fun c => length c = 8%nat) chunks).
  { subst chunks. apply Forall_map, Forall_forall. intros v _. apply length_digits. }
  assert (L : length b = length chunks) by (subst chunks; now rewrite !length_map).
  rewrite L.
  rewrite (map_slices 8
             (fun c => match Byte.of_N (Z.to_N (value c)) with
                       | Some x => x
                       | None => x00%byte
                       end) chunks F).
  subst chunks. rewrite !map_map. rewrite <- (map_id b) at 2.
  apply map_ext. intros x.
  rewrite value_digits.
  - now rewrite N2Z.id, Byte.of_to_N.
  - pose proof (Byte.to_N_bounded x). change (2 ^ Z.of_nat 8) with 256. lia.
Qed.

Lemma forallb_eqb_refl (l : list bool) :
  forallb (fun p => Bool.eqb (fst p) (snd p)) (combine l l) = true.
Proof.
  induction l as [|x l IH]; [reflexivity|].
  cbn. now rewrite Bool.eqb_reflx, IH.
Qed.

Section Wordlist.

Variable word_list : list string.
Variable std_hash : bytes -> bytes.

Hypothesis word_list_length : length word_list = 2048%nat.
Hypothesis word_list_distinct : NoDup word_list.
Hypothesis word_list_no_space : Forall (fun w => no_space w = true) word_list.
Hypothesis std_hash_length : forall b, length (std_hash b) = 32%nat.

(** The dictionary finds the position of a word. *)
Lemma index_from_notin w l : forall i found,
  ~ In w l -> index_from w l i found = found.
Proof.
  induction l as [|x l IH]; intros i found N; [reflexivity|].
  cbn [index_from]. destruct (String.eqb_spec x w) as [->|_].
  - exfalso. apply N. now left.
  - apply IH. intros H. apply N. now right.
Qed.

Lemma index_from_nth w l : forall n i found,
  NoDup l -> nth_error l n = Some w ->
  index_from w l i found = Some (i + n)%nat.
Proof.
  induction l as [|x l IH]; intros n i found D E.
  - destruct n; discriminate.
  - inversion D as [|? ? Nx Dl]; subst. destruct n as [|n]; cbn in E.
    + injection E as ->. cbn [index_from]. rewrite String.eqb_refl.
      rewrite index_from_notin by assumption. f_equal. lia.
    + cbn [index_from]. destruct (String.eqb_spec x w) as [->|_].
      * exfalso. apply Nx. eapply nth_error_In. exact E.
      * rewrite (IH n (S i) found Dl E). f_equal. lia.
Qed.

Lemma group_position group :
  length group = 11%nat -> (Z.to_nat (value group) < 2048)%nat.
Proof.
  intros L. pose proof (value_bound group) as B. rewrite L in B.
  change (2 ^ Z.of_nat 11) with 2048 in B. lia.
Qed.

Lemma word_of_spec group :
  length group = 11%nat ->
  nth_error word_list (Z.to_nat (value group)) = Some (word_of word_list group).
Proof.
  intros L. apply nth_error_nth'. rewrite word_list_length. now apply group_position.
Qed.

Lemma word_of_group_back group :
  length group = 11%nat ->
  match word_index word_list (word_of word_list group) with
  | Some n => uint11 n
  | None => None
  end = Some group.
Proof.
  intros L. unfold word_index.
  rewrite (index_from_nth _ _ _ 0%nat None word_list_distinct (word_of_spec group L)).
  cbn [Nat.add]. unfold uint11.
  pose proof (group_position group L) as P.
  destruct (Nat.ltb_spec (Z.to_nat (value group)) 2048); [|lia].
  f_equal. rewrite Z2Nat.id by apply value_bound.
  rewrite <- L. apply digits_value.
Qed.

Lemma word_of_no_space group :
  length group = 11%nat -> no_space (word_of word_list group) = true.
Proof.
  intros L. apply (proj1 (Forall_forall _ _) word_list_no_space).
  eapply nth_error_In. now apply word_of_spec.
Qed.

(** The mnemonic of [4 * k] bytes of entropy, [k] from 4 to 8, and its
    way back. *)
Lemma mnemonic_round_trip_any (e : bytes) (k : nat) :
  length e = (4 * k)%nat -> (4 <= k <= 8)%nat ->
  exists mnemonic_str,
    bytes_to_mnemonic word_list std_hash e = Some mnemonic_str /\
    length (split_space mnemonic_str) = (3 * k)%nat /\
    bytes_from_mnemonic word_list std_hash mnemonic_str = Some e.
Proof.
  intros Le Hk.
  set (checksum := firstn k (bits_of_bytes (std_hash e))).
  assert (Lc : length checksum = k).
  { subst checksum. rewrite length_firstn, length_bits_of_bytes, std_hash_length. lia. }
  set (bitarray := (bits_of_bytes e ++ checksum)%list).
  assert (Lb : length bitarray = (3 * k * 11)%nat).
  { subst bitarray. rewrite length_app, length_bits_of_bytes, Le, Lc. lia. }
  destruct (slices_spec 11 (3 * k) bitarray Lb) as (groups & C & F & N).
  assert (Ewords :
    all_some (map (fun i =>
                     let start := (i * 11)%nat in
                     let bits := slice bitarray start (start + 11) in
                     nth_error word_list (Z.to_nat (value bits)))
                  (seq 0 (3 * k)))
    = Some (map (word_of word_list) groups)).
  { rewrite <- N, <- C. cbv zeta.
    rewrite (map_ext _ (fun i => (fun c => nth_error word_list (Z.to_nat (value c)))
                                   (slice (concat groups) (11 * i) (11 * i + 11)))).
    2:{ intros i. now rewrite (Nat.mul_comm i 11). }
    rewrite (map_slices 11 (fun c => nth_error word_list (Z.to_nat (value c))) groups F).
    apply all_some_map. intros g Hg. apply word_of_spec.
    exact (proj1 (Forall_forall _ _) F g Hg). }
  assert (Hin16 : existsb (Nat.eqb (length e)) [16; 20; 24; 28; 32]%nat = true).
  { rewrite Le. assert (K : (k = 4 \/ k = 5 \/ k = 6 \/ k = 7 \/ k = 8)%nat) by lia.
    destruct K as [->|[->|[->|[->| ->]]]]; reflexivity. }
  assert (Hin12 : existsb (Nat.eqb (3 * k)) [12; 15; 18; 21; 24]%nat = true).
  { assert (K : (k = 4 \/ k = 5 \/ k = 6 \/ k = 7 \/ k = 8)%nat) by lia.
    destruct K as [->|[->|[->|[->| ->]]]]; reflexivity. }
  assert (Hwords : Forall (fun w => no_space w = true) (map (word_of word_list) groups)).
  { apply Forall_map. eapply Forall_impl; [|exact F]. apply word_of_no_space. }
  assert (Hsplit : split_space (join_space (map (word_of word_list) groups)) = map (word_of word_list) groups).
  { apply split_join; [|assumption].
    intros E0. apply (f_equal (@length _)) in E0. rewrite length_map, N in E0.
    cbn in E0. lia. }
  exists (join_space (map (word_of word_list) groups)). split; [|split].
  - unfold bytes_to_mnemonic. rewrite Hin16. cbn [negb].
    replace (length e / 4)%nat with k
      by (rewrite Le, Nat.mul_comm, Nat.div_mul; lia).
    fold checksum. fold bitarray. rewrite Lb.
    rewrite Nat.Div0.mod_mul, Nat.div_mul by lia. cbn [Nat.eqb negb].
    cbv zeta in Ewords |- *. now rewrite Ewords.
  - now rewrite Hsplit, length_map, N.
  - unfold bytes_from_mnemonic. rewrite Hsplit, length_map, N, Hin12. cbn [negb].
    rewrite map_map.
    rewrite (all_some_map _ (fun g => g) groups).
    2:{ intros g Hg. apply word_of_group_back.
        exact (proj1 (Forall_forall _ _) F g Hg). }
    rewrite map_id, C, Lb, Nat.eqb_refl. cbn [negb orb].
    replace (3 * k / 3)%nat with k by (rewrite Nat.mul_comm, Nat.div_mul; lia).
    replace (3 * k * 11 - k)%nat with (k * 32)%nat by lia.
    rewrite Nat.Div0.mod_mul. cbn [Nat.eqb negb].
    assert (Hent : slice bitarray 0 (k * 32) = bits_of_bytes e).
    { unfold slice. cbn [skipn]. rewrite Nat.sub_0_r. subst bitarray.
      rewrite firstn_app, length_bits_of_bytes, Le.
      replace (k * 32 - 8 * (4 * k))%nat with 0%nat by lia.
      rewrite firstn_all2 by (rewrite length_bits_of_bytes; lia).
      cbn. apply app_nil_r. }
    rewrite Hent, bytes_of_bits_of_bytes.
    assert (Hcs : skipn (k * 32) bitarray = checksum).
    { subst bitarray.
      replace (k * 32)%nat with (length (bits_of_bytes e))
        by (rewrite length_bits_of_bytes; lia).
      apply skipn_length_app. }
    rewrite Hcs. fold checksum. rewrite Lc, !Nat.eqb_refl, forallb_eqb_refl.
    reflexivity.
Qed.

End Wordlist.

(** [distinct] decides [NoDup]. *)
Lemma distinct_NoDup l : distinct l = true -> NoDup l.
Proof.
  induction l as [|w l IH]; intros H; [constructor|].
  cbn in H. apply andb_prop in H as [Hw Hl]. constructor; [|now apply IH].
  intros Hin. apply negb_true_iff in Hw.
  assert (existsb (String.eqb w) l = true); [|congruence].
  apply existsb_exists. exists w. split; [assumption|apply String.eqb_refl].
Qed.

(** C7: on a list of 2048 different words without spaces and with a
    hash of 32 bytes, every 16 bytes of entropy have a mnemonic, of 12
    words, and turning that mnemonic back gives the 16 bytes. *)
Theorem mnemonic_round_trip
    (word_list : list string) (std_hash : bytes -> bytes) (e : bytes) :
  length word_list = 2048%nat ->
  NoDup word_list ->
  Forall (fun w => no_space w = true) word_list ->
  (forall b, length (std_hash b) = 32%nat) ->
  length e = 16%nat ->
  exists mnemonic_str,
    bytes_to_mnemonic word_list std_hash e = Some mnemonic_str /\
    length (split_space mnemonic_str) = 12%nat /\
    bytes_from_mnemonic word_list std_hash mnemonic_str = Some e.
Proof.
  intros Hlen Hdistinct Hspace Hhash He.
  exact (mnemonic_round_trip_any word_list std_hash Hlen Hdistinct Hspace Hhash
           e 4 He ltac:(lia)).
Qed.

Lemma mnemonic_round_trip_witness :
  length toy_words = 2048%nat /\
  NoDup toy_words /\
  Forall (fun w => no_space w = true) toy_words /\
  (forall b, length (toy_hash b) = 32%nat) /\
  length toy_entropy = 16%nat /\
  exists mnemonic_str,
    bytes_to_mnemonic toy_words toy_hash toy_entropy = Some mnemonic_str /\
    length (split_space mnemonic_str) = 12%nat /\
    bytes_from_mnemonic toy_words toy_hash mnemonic_str = Some toy_entropy.
Proof.
  assert (H1 : length toy_words = 2048%nat) by (vm_compute; reflexivity).
  assert (H2 : NoDup toy_words) by (apply distinct_NoDup; vm_compute; reflexivity).
  assert (H3 : Forall (fun w => no_space w = true) toy_words).
  { apply Forall_forall. apply forallb_forall. vm_compute. reflexivity. }
  assert (H4 : forall b, length (toy_hash b) = 32%nat)
    by (intros b; apply repeat_length).
  assert (H5 : length toy_entropy = 16%nat) by reflexivity.
  repeat (split; [assumption|]).
  exact (mnemonic_round_trip toy_words toy_hash toy_entropy H1 H2 H3 H4 H5).
Defined.

End Bip39Facts.

(** ** What a run prints can be read back *)

Section EndToEnd.

Context (L : Library) (word_list : list string) (std_hash : bytes -> bytes).

Hypothesis word_list_length : length word_list = 2048%nat.
Hypothesis word_list_distinct : NoDup word_list.
Hypothesis word_list_no_space : Forall (fun w => Bip39.no_space w = true) word_list.
Hypothesis std_hash_length : forall b, length (std_hash b) = 32%nat.

(** In a run of [generate_xch_key] that returns, the mnemonic on the
    terminal turns back into the entropy drawn, the encoders have not
    raised, and, when the puzzle hash has 32 bytes and the configured
    prefix is well formed, the address on the terminal decodes to the
    puzzle hash. *)
Theorem printed_values_read_back w loc w' :
  run (generate_xch_key (with_encoders L word_list std_hash)) w = (inr loc, w') ->
  Bip39.bytes_to_mnemonic word_list std_hash (entropy loc) = Some (mnemonic loc) /\
  Bip39.bytes_from_mnemonic word_list std_hash (mnemonic loc) = Some (entropy loc) /\
  Bech32m.encode_puzzle_hash (first_puzzle_hash loc)
    (get_config_item L ["xch"; "prefix"]) = Some (first_address loc) /\
  (length (first_puzzle_hash loc) = 32%nat ->
   Bech32m.well_formed_prefix (get_config_item L ["xch"; "prefix"]) = true ->
   Bech32m.decode_puzzle_hash (first_address loc) = Some (first_puzzle_hash loc)).
Proof.
  intros H. destruct (generate_xch_key_returned _ _ _ _ H)
    as [(pool & _ & He & _) Hm _ _ _ _ _ _ _ _ Ha _ _].
  cbn in Hm, Ha.
  assert (Le : length (entropy loc) = 16%nat)
    by (rewrite He, length_map, length_seq; reflexivity).
  destruct (Bip39Facts.mnemonic_round_trip_any word_list std_hash
              word_list_length word_list_distinct word_list_no_space
              std_hash_length (entropy loc) 4 Le ltac:(lia))
    as (m & Em & _ & Dm).
  rewrite Em in Hm. subst m.
  destruct (AddressFacts.encode_puzzle_hash_shape (first_puzzle_hash loc)
              (get_config_item L ["xch"; "prefix"]))
    as (data & cs & _ & R & U & V & D & B & E & Lcs).
  rewrite E in Ha.
  repeat split; try assumption.
  - now rewrite Ha.
  - intros L32 W. rewrite Ha.
    assert (Hlen : (String.length (get_config_item L ["xch"; "prefix"]) + 7
                    + length data <= 90)%nat).
    { unfold Bech32m.well_formed_prefix in W.
      apply andb_prop in W as [W _]. apply andb_prop in W as [_ W].
      apply Nat.leb_le in W. lia. }
    destruct (Bech32mFacts.bech32_decode_encode _ data W R Hlen) as (a & Ea & Da).
    rewrite B in Ea. injection Ea as <-.
    unfold Bech32m.decode_puzzle_hash. cbn [String.append] in Da |- *.
    rewrite Da, D. now apply AddressFacts.bytes32_ints_of_bytes.
Qed.

End EndToEnd.

(** ** [bytes.hex()] *)

Module HexFacts.

Lemma hex_value_digit n : (n < 16)%N -> hex_value (hex_digit n) = n.
Proof.
  intros H.
  destruct n as [|p]; [reflexivity|].
  do 4 (destruct p as [p|p|]; try reflexivity); exfalso; lia.
Qed.

Lemma hex_digit_in n : In (hex_digit n) hex_digits.
Proof.
  destruct n as [|p]; [cbn; tauto|].
  do 4 (destruct p as [p|p|]; try (cbn; tauto)).
Qed.

Lemma byte_digits x :
  (Byte.to_N x / 16 < 16)%N /\ (Byte.to_N x mod 16 < 16)%N.
Proof.
  pose proof (Byte.to_N_bounded x). split.
  - apply N.Div0.div_lt_upper_bound. lia.
  - apply N.mod_lt. lia.
Qed.

Lemma byte_of_digits x y :
  hex_digit (Byte.to_N x / 16) = hex_digit (Byte.to_N y / 16) ->
  hex_digit (Byte.to_N x mod 16) = hex_digit (Byte.to_N y mod 16) ->
  x = y.
Proof.
  intros Hd Hm.
  destruct (byte_digits x) as [Dx Mx], (byte_digits y) as [Dy My].
  apply (f_equal hex_value) in Hd, Hm.
  rewrite !hex_value_digit in Hd, Hm by assumption.
  assert (E : Byte.to_N x = Byte.to_N y).
  { rewrite (N.div_mod' (Byte.to_N x) 16), (N.div_mod' (Byte.to_N y) 16).
    now rewrite Hd, Hm. }
  pose proof (Byte.of_to_N x) as Ex. rewrite E, Byte.of_to_N in Ex.
  now injection Ex.
Qed.

Lemma hex_inj b1 : forall b2, hex b1 = hex b2 -> b1 = b2.
Proof.
  induction b1 as [|x b1 IH]; intros [|y b2] H; cbn in H;
    try reflexivity; try discriminate.
  injection H as Hd Hm Hr.
  now rewrite (byte_of_digits x y Hd Hm), (IH b2 Hr).
Qed.

Lemma length_hex b : String.length (hex b) = (2 * length b)%nat.
Proof. induction b as [|x b IH]; cbn [hex String.length length]; lia. Qed.

End HexFacts.

(** ** More about [generate_xch_key] *)

Section MoreRuns.

Context (L : Library).

Implicit Types (w : World L) (loc : Locals L).

Lemma new_lines_lines_of w loc w' :
  run (generate_xch_key L) w = (inr loc, w') ->
  new_lines w w' = lines_of loc.
Proof.
  intros H. apply generate_xch_key_returned in H.
  unfold new_lines. rewrite (ret_stdout _ _ _ _ H).
  apply skipn_length_app.
Qed.

(** X1: the digits after [Private Key: ] are two for each byte of
    the key, each one of [0123456789abcdef]. *)
Theorem private_key_line_shape w loc w' :
  run (generate_xch_key L) w = (inr loc, w') ->
  exists digits,
    nth_error (new_lines w w') 2 = Some ("Private Key: " ++ digits) /\
    String.length digits = (2 * length (sk_bytes L (private_key loc)))%nat /\
    Forall (fun c => In c hex_digits) (list_ascii_of_string digits).
Proof.
  intros H. exists (hex (sk_bytes L (private_key loc))).
  rewrite (new_lines_lines_of _ _ _ H). split; [reflexivity|].
  split; [apply HexFacts.length_hex|].
  induction (sk_bytes L (private_key loc)) as [|x b IH];
    cbn [hex list_ascii_of_string]; [constructor|].
  constructor; [apply HexFacts.hex_digit_in|].
  constructor; [apply HexFacts.hex_digit_in | exact IH].
Qed.

(** X2: the private key line tells the bytes of the key: two runs
    that return, in any two worlds, and have printed the same private
    key line have validator keys with the same bytes. *)
Theorem private_key_line_determines_bytes w1 loc1 w1' w2 loc2 w2' :
  run (generate_xch_key L) w1 = (inr loc1, w1') ->
  run (generate_xch_key L) w2 = (inr loc2, w2') ->
  nth_error (new_lines w1 w1') 2 = nth_error (new_lines w2 w2') 2 ->
  sk_bytes L (private_key loc1) = sk_bytes L (private_key loc2).
Proof.
  intros H1 H2.
  rewrite (new_lines_lines_of _ _ _ H1), (new_lines_lines_of _ _ _ H2).
  cbn [nth_error lines_of]. intros E. injection E as E.
  apply HexFacts.hex_inj. exact E.
Qed.

(** X4: the one thing the command reads of the configuration is the
    item at [xch], [prefix].  No run, however it ends, asks
    [get_config_item] for any other path, and none asks twice; a run
    that returns has asked for that item exactly once, and what
    [get_config_item] returned for it is the prefix of the address
    printed, so that the address is the encoding of the puzzle hash
    with that prefix.  [mnemonic_to_validator_pk] asks for
    nothing. *)
Theorem config_read_once w m :
  Forall (fun path => path = ["xch"; "prefix"])
    (config_paths (new_calls w (snd (run (generate_xch_key L) w)))) /\
  (length (config_paths (new_calls w (snd (run (generate_xch_key L) w)))) <= 1)%nat /\
  match fst (run (generate_xch_key L) w) with
  | inr loc =>
      config_paths (new_calls w (snd (run (generate_xch_key L) w))) =
        [["xch"; "prefix"]] /\
      first_address loc =
        encode_puzzle_hash L (first_puzzle_hash loc)
          (get_config_item L ["xch"; "prefix"]) /\
      nth_error (new_lines w (snd (run (generate_xch_key L) w))) 4 =
        Some ("First address: " ++
              encode_puzzle_hash L (first_puzzle_hash loc)
                (get_config_item L ["xch"; "prefix"]))
  | inl _ => True
  end /\
  config_paths (new_calls w (snd (run (mnemonic_to_validator_pk L m) w))) = [].
Proof.
  assert (C : match fst (run (generate_xch_key L) w) with
              | inr loc =>
                  config_paths (new_calls w (snd (run (generate_xch_key L) w))) =
                    [["xch"; "prefix"]] /\
                  first_address loc =
                    encode_puzzle_hash L (first_puzzle_hash loc)
                      (get_config_item L ["xch"; "prefix"]) /\
                  nth_error (new_lines w (snd (run (generate_xch_key L) w))) 4 =
                    Some ("First address: " ++
                          encode_puzzle_hash L (first_puzzle_hash loc)
                            (get_config_item L ["xch"; "prefix"]))
              | inl _ =>
                  config_paths (new_calls w (snd (run (generate_xch_key L) w))) = []
              end).
  { destruct (urandom w) as [|pool] eqn:Hr.
    - rewrite (generate_xch_key_unavailable L w Hr). cbn [fst snd].
      unfold new_calls; cbn [calls]. now rewrite skipn_length_app.
    - destruct (mnemonic_to_seed L (bytes_to_mnemonic L (map pool (seq 0 16))))
        as [s|] eqn:Hs.
      + destruct (generate_xch_key_returns L w pool s Hr Hs) as (loc & w' & H).
        rewrite H. cbn [fst snd]. rewrite (new_lines_lines_of _ _ _ H).
        apply generate_xch_key_returned in H.
        unfold new_calls. rewrite (ret_calls _ _ _ _ H), skipn_length_app.
        split; [reflexivity|]. split; [exact (ret_first_address _ _ _ _ H)|].
        cbn [nth_error lines_of]. now rewrite <- (ret_first_address _ _ _ _ H).
      + rewrite (generate_xch_key_invalid L w pool Hr Hs). cbn [fst snd].
        unfold new_calls; cbn [calls]. now rewrite skipn_length_app. }
  split; [|split; [|split]].
  - destruct (fst (run (generate_xch_key L) w)) as [x|loc].
    + rewrite C. constructor.
    + destruct C as (-> & _). repeat constructor.
  - destruct (fst (run (generate_xch_key L) w)) as [x|loc].
    + rewrite C. cbn. lia.
    + destruct C as (-> & _). cbn. lia.
  - destruct (fst (run (generate_xch_key L) w)) as [x|loc]; [exact I | exact C].
  - rewrite mnemonic_to_validator_pk_run.
    destruct (mnemonic_to_seed L m); cbn [snd]; unfold new_calls; cbn [calls];
      now rewrite skipn_length_app.
Qed.

(** X6: runs one after the other.  When a run returns and a second
    run, started in the world the first has left, returns too, the
    two have drawn the first and the second 16 bytes of the
    randomness there was, no byte twice; the terminal holds the five
    lines of the first run and then the five of the second, after
    what it held before; and 32 bytes of the randomness are spent. *)
Theorem consecutive_runs w loc1 w1 loc2 w2 :
  run (generate_xch_key L) w = (inr loc1, w1) ->
  run (generate_xch_key L) w1 = (inr loc2, w2) ->
  exists pool,
    urandom w = Available pool /\
    entropy loc1 = map pool (seq 0 16) /\
    entropy loc2 = map pool (seq 16 16) /\
    urandom w2 = Available (fun i => pool (32 + i)%nat) /\
    stdout w2 = (stdout w ++ lines_of loc1 ++ lines_of loc2)%list /\
    new_calls w w2 = (new_calls w w1 ++ new_calls w1 w2)%list.
Proof.
  intros H1 H2. apply generate_xch_key_returned in H1, H2.
  destruct (ret_pool _ _ _ _ H1) as (pool & Hw & He1 & Hw1).
  destruct (ret_pool _ _ _ _ H2) as (pool1 & Hw1' & He2 & Hw2).
  rewrite Hw1 in Hw1'. injection Hw1' as <-.
  exists pool.
  split; [exact Hw|]. split; [exact He1|].
  split; [rewrite He2; reflexivity|].
  split; [rewrite Hw2; reflexivity|]. split.
  - rewrite (ret_stdout _ _ _ _ H2), (ret_stdout _ _ _ _ H1).
    rewrite <- app_assoc. reflexivity.
  - unfold new_calls.
    rewrite (ret_calls _ _ _ _ H2), (skipn_length_app (calls w1)).
    rewrite (ret_calls _ _ _ _ H1), <- app_assoc, !skipn_length_app.
    reflexivity.
Qed.

(** X9: an address on the terminal comes with its mnemonic.  When
    a run, however it ends, has printed a first address line, it has
    returned, the address is the one of its frame, and the line is the
    last of the five, printed after the mnemonic the address was
    derived from. *)
Theorem address_comes_with_mnemonic w a :
  In ("First address: " ++ a) (new_lines w (snd (run (generate_xch_key L) w))) ->
  exists loc,
    fst (run (generate_xch_key L) w) = inr loc /\
    a = first_address loc /\
    new_lines w (snd (run (generate_xch_key L) w)) = lines_of loc /\
    nth_error (lines_of loc) 1 = Some ("Mnemonic: " ++ mnemonic loc) /\
    nth_error (lines_of loc) 4 = Some ("First address: " ++ a).
Proof.
  destruct (urandom w) as [|pool] eqn:Hr.
  - rewrite (generate_xch_key_unavailable L w Hr). cbn [fst snd].
    unfold new_lines; cbn [stdout]. rewrite skipn_length_app.
    cbn. intros [H|[]]. discriminate.
  - destruct (mnemonic_to_seed L (bytes_to_mnemonic L (map pool (seq 0 16))))
      as [s|] eqn:Hs.
    + destruct (generate_xch_key_returns L w pool s Hr Hs) as (loc & w' & H).
      rewrite H. cbn [fst snd]. rewrite (new_lines_lines_of _ _ _ H).
      cbn. intros [F|[F|[F|[F|[F|[]]]]]]; try discriminate.
      injection F as F. exists loc. rewrite F. repeat split.
    + rewrite (generate_xch_key_invalid L w pool Hr Hs). cbn [fst snd].
      unfold new_lines; cbn [stdout]. rewrite skipn_length_app.
      cbn. intros [F|[F|[]]]; discriminate.
Qed.

End MoreRuns.

(** ** The same on runs of the small library *)

Lemma sample_run1 :
  run (generate_xch_key Toy.lib) Sample.world = (inr Sample.frame1, Sample.after1).
Proof. reflexivity. Defined.

Lemma sample_run2 :
  run (generate_xch_key Toy.lib) Sample.after1 = (inr Sample.frame2, Sample.after2).
Proof. reflexivity. Defined.

Lemma sample_run' :
  run (generate_xch_key Toy.lib) Sample.world' = (inr Sample.frame', Sample.after').
Proof. reflexivity. Defined.

Lemma private_key_line_shape_witness :
  run (generate_xch_key Toy.lib) Sample.world = (inr Sample.frame1, Sample.after1) /\
  nth_error (new_lines Sample.world Sample.after1) 2 = Some "Private Key: 0133aa" /\
  exists digits,
    nth_error (new_lines Sample.world Sample.after1) 2 =
      Some ("Private Key: " ++ digits) /\
    String.length digits = 6%nat /\
    Forall (fun c => In c hex_digits) (list_ascii_of_string digits).
Proof.
  split; [exact sample_run1|]. split; [reflexivity|].
  exact (private_key_line_shape Toy.lib Sample.world Sample.frame1 Sample.after1
           sample_run1).
Defined.

Lemma private_key_line_determines_bytes_witness :
  run (generate_xch_key Toy.lib) Sample.world = (inr Sample.frame1, Sample.after1) /\
  run (generate_xch_key Toy.lib) Sample.world' = (inr Sample.frame', Sample.after') /\
  nth_error (new_lines Sample.world Sample.after1) 2 =
    nth_error (new_lines Sample.world' Sample.after') 2 /\
  entropy Sample.frame1 <> entropy Sample.frame' /\
  sk_bytes Toy.lib (private_key Sample.frame1) =
    sk_bytes Toy.lib (private_key Sample.frame').
Proof.
  split; [exact sample_run1|]. split; [exact sample_run'|].
  split; [reflexivity|]. split; [discriminate|].
  exact (private_key_line_determines_bytes Toy.lib
           Sample.world Sample.frame1 Sample.after1
           Sample.world' Sample.frame' Sample.after'
           sample_run1 sample_run' eq_refl).
Defined.

Lemma consecutive_runs_witness :
  run (generate_xch_key Toy.lib) Sample.world = (inr Sample.frame1, Sample.after1) /\
  run (generate_xch_key Toy.lib) Sample.after1 = (inr Sample.frame2, Sample.after2) /\
  entropy Sample.frame1 = firstn 16 Sample.table /\
  entropy Sample.frame2 = firstn 16 (skipn 16 Sample.table) /\
  exists pool,
    urandom Sample.world = Available pool /\
    entropy Sample.frame1 = map pool (seq 0 16) /\
    entropy Sample.frame2 = map pool (seq 16 16) /\
    urandom Sample.after2 = Available (fun i => pool (32 + i)%nat) /\
    stdout Sample.after2 =
      (stdout Sample.world ++ lines_of Sample.frame1 ++ lines_of Sample.frame2)%list /\
    new_calls Sample.world Sample.after2 =
      (new_calls Sample.world Sample.after1 ++
       new_calls Sample.after1 Sample.after2)%list.
Proof.
  split; [exact sample_run1|]. split; [exact sample_run2|].
  split; [reflexivity|]. split; [reflexivity|].
  exact (consecutive_runs Toy.lib Sample.world Sample.frame1 Sample.after1
           Sample.frame2 Sample.after2 sample_run1 sample_run2).
Defined.

Lemma address_comes_with_mnemonic_witness :
  In "First address: xch11d71bb3301cc"
    (new_lines Sample.world (snd (run (generate_xch_key Toy.lib) Sample.world))) /\
  exists loc,
    fst (run (generate_xch_key Toy.lib) Sample.world) = inr loc /\
    "xch11d71bb3301cc" = first_address loc /\
    new_lines Sample.world (snd (run (generate_xch_key Toy.lib) Sample.world)) =
      lines_of loc /\
    nth_error (lines_of loc) 1 = Some ("Mnemonic: " ++ mnemonic loc) /\
    nth_error (lines_of loc) 4 = Some "First address: xch11d71bb3301cc".
Proof.
  assert (H : In "First address: xch11d71bb3301cc"
                (new_lines Sample.world
                   (snd (run (generate_xch_key Toy.lib) Sample.world)))).
  { cbn. do 4 right. left. reflexivity. }
  split; [exact H|].
  exact (address_comes_with_mnemonic Toy.lib Sample.world "xch11d71bb3301cc" H).
Defined.

(** ** Runs of [generate_eth_key] *)

Module EthFacts.

Import Eth.

Section Runs.

Context (E : Eth.Library).

Implicit Types (w : Eth.World E) (account : LocalAccount E).

(** [generate_eth_key] in full: the run goes as far as the first
    call that raises. *)
Lemma generate_eth_key_run w :
  Eth.run (generate_eth_key E) w =
    match create E (Eth.urandom w) with
    | inl x =>
        (inl x,
         Eth.mkWorld (Eth.urandom w) (Eth.stdout w ++ ["Generating ETH key..."])%list
           (Eth.calls w ++ [Call_create])%list)
    | inr (account, rest) =>
        match key_hex E account with
        | inl x =>
            (inl x,
             Eth.mkWorld rest (Eth.stdout w ++ ["Generating ETH key..."])%list
               (Eth.calls w ++ [Call_create; Call_key_hex E account])%list)
        | inr key =>
            match public_key_str E account with
            | inl x =>
                (inl x,
                 Eth.mkWorld rest
                   (Eth.stdout w ++
                    ["Generating ETH key..."; ("Private Key: " ++ key)%string])%list
                   (Eth.calls w ++
                    [Call_create; Call_key_hex E account;
                     Call_public_key_str E account])%list)
            | inr public_key =>
                match to_checksum_address E (address E account) with
                | inl x =>
                    (inl x,
                     Eth.mkWorld rest
                       (Eth.stdout w ++
                        ["Generating ETH key..."; ("Private Key: " ++ key)%string;
                         ("Public Key: " ++ public_key)%string])%list
                       (Eth.calls w ++
                        [Call_create; Call_key_hex E account;
                         Call_public_key_str E account;
                         Call_to_checksum_address E (address E account)])%list)
                | inr checksum_address =>
                    (inr account,
                     Eth.mkWorld rest
                       (Eth.stdout w ++
                        Eth.lines_of key public_key checksum_address)%list
                       (Eth.calls w ++
                        [Call_create; Call_key_hex E account;
                         Call_public_key_str E account;
                         Call_to_checksum_address E (address E account)])%list)
                end
            end
        end
    end.
Proof.
  unfold Eth.run, generate_eth_key, Account_create, Eth.call; cbn.
  destruct (create E (Eth.urandom w)) as [x|[account rest]]; cbn;
    [reflexivity|].
  destruct (key_hex E account) as [x|key]; cbn;
    [now rewrite <- !app_assoc|].
  destruct (public_key_str E account) as [x|public_key]; cbn;
    [now rewrite <- !app_assoc|].
  destruct (to_checksum_address E (address E account)) as [x|checksum_address];
    cbn; now rewrite <- !app_assoc.
Qed.

(** X7: a run of [generate_eth_key] that returns has created one
    account, and the three lines it has printed after the banner are
    that account's key, its public key and the checksum form of its
    address, in this order; it has made four calls, each once, and
    has left the randomness as [Account.create] left it. *)
Theorem eth_key_lines w account w' :
  Eth.run (generate_eth_key E) w = (inr account, w') ->
  exists rest key public_key checksum_address,
    create E (Eth.urandom w) = inr (account, rest) /\
    key_hex E account = inr key /\
    public_key_str E account = inr public_key /\
    to_checksum_address E (address E account) = inr checksum_address /\
    Eth.urandom w' = rest /\
    Eth.new_lines w w' =
      ["Generating ETH key..."; ("Private Key: " ++ key)%string;
       ("Public Key: " ++ public_key)%string;
       ("Address: " ++ checksum_address)%string] /\
    Eth.new_calls w w' =
      [Call_create; Call_key_hex E account; Call_public_key_str E account;
       Call_to_checksum_address E (address E account)].
Proof.
  rewrite generate_eth_key_run.
  destruct (create E (Eth.urandom w)) as [x|[a rest]]; [discriminate|].
  destruct (key_hex E a) as [x|key] eqn:K; [discriminate|].
  destruct (public_key_str E a) as [x|public_key] eqn:P; [discriminate|].
  destruct (to_checksum_address E (address E a)) as [x|checksum_address] eqn:A;
    [discriminate|].
  intros H. injection H as <- <-.
  exists rest, key, public_key, checksum_address.
  unfold Eth.new_lines, Eth.new_calls; cbn [Eth.urandom Eth.stdout Eth.calls].
  rewrite !skipn_length_app. repeat split; assumption.
Qed.

(** X8: a run of [generate_eth_key] that raises has raised what its
    first failing call raised and has printed the lines before that
    call and no other.  When [Account.create] raises, or the hex of
    the key does, only the banner is printed; when the public key
    cannot be printed, the banner and the private key are; when the
    address is refused, the banner, the private key and the public
    key are.  An address line is never printed by a run that
    raises. *)
Theorem eth_key_raises w x w' :
  Eth.run (generate_eth_key E) w = (inl x, w') ->
  (create E (Eth.urandom w) = inl x /\
   Eth.urandom w' = Eth.urandom w /\
   Eth.new_lines w w' = ["Generating ETH key..."] /\
   Eth.new_calls w w' = [Call_create]) \/
  (exists account rest,
     create E (Eth.urandom w) = inr (account, rest) /\
     Eth.urandom w' = rest /\
     ((key_hex E account = inl x /\
       Eth.new_lines w w' = ["Generating ETH key..."] /\
       Eth.new_calls w w' = [Call_create; Call_key_hex E account]) \/
      (exists key,
         key_hex E account = inr key /\
         public_key_str E account = inl x /\
         Eth.new_lines w w' =
           ["Generating ETH key..."; ("Private Key: " ++ key)%string] /\
         Eth.new_calls w w' =
           [Call_create; Call_key_hex E account;
            Call_public_key_str E account]) \/
      (exists key public_key,
         key_hex E account = inr key /\
         public_key_str E account = inr public_key /\
         to_checksum_address E (address E account) = inl x /\
         Eth.new_lines w w' =
           ["Generating ETH key..."; ("Private Key: " ++ key)%string;
            ("Public Key: " ++ public_key)%string] /\
         Eth.new_calls w w' =
           [Call_create; Call_key_hex E account;
            Call_public_key_str E account;
            Call_to_checksum_address E (address E account)]))).
Proof.
  rewrite generate_eth_key_run.
  unfold Eth.new_lines, Eth.new_calls.
  destruct (create E (Eth.urandom w)) as [y|[a rest]].
  { intros H. injection H as <- <-. left.
    cbn [Eth.urandom Eth.stdout Eth.calls]. rewrite !skipn_length_app.
    repeat split. }
  destruct (key_hex E a) as [y|key] eqn:K.
  { intros H. injection H as <- <-. right. exists a, rest.
    cbn [Eth.urandom Eth.stdout Eth.calls]. rewrite !skipn_length_app.
    split; [reflexivity|]. split; [reflexivity|]. left. repeat split; assumption. }
  destruct (public_key_str E a) as [y|public_key] eqn:P.
  { intros H. injection H as <- <-. right. exists a, rest.
    cbn [Eth.urandom Eth.stdout Eth.calls]. rewrite !skipn_length_app.
    split; [reflexivity|]. split; [reflexivity|].
    right; left. exists key. repeat split; assumption. }
  destruct (to_checksum_address E (address E a)) as [y|checksum_address] eqn:A.
  { intros H. injection H as <- <-. right. exists a, rest.
    cbn [Eth.urandom Eth.stdout Eth.calls]. rewrite !skipn_length_app.
    split; [reflexivity|]. split; [reflexivity|].
    right; right. exists key, public_key. repeat split; assumption. }
  discriminate.
Qed.

(** X10: an address on the terminal comes with its key.  When a
    run, however it ends, has printed an address line, it has
    returned, the address is the checksum form of the address of the
    account it created, and the private key line of that account was
    printed before it. *)
Theorem eth_address_comes_with_key w a :
  In ("Address: " ++ a)%string
    (Eth.new_lines w (snd (Eth.run (generate_eth_key E) w))) ->
  exists account key public_key,
    fst (Eth.run (generate_eth_key E) w) = inr account /\
    key_hex E account = inr key /\
    to_checksum_address E (address E account) = inr a /\
    Eth.new_lines w (snd (Eth.run (generate_eth_key E) w)) =
      Eth.lines_of key public_key a.
Proof.
  rewrite generate_eth_key_run. unfold Eth.new_lines.
  destruct (create E (Eth.urandom w)) as [y|[account rest]].
  { cbn [snd Eth.stdout]. rewrite skipn_length_app.
    cbn. intros [F|[]]. discriminate. }
  destruct (key_hex E account) as [y|key] eqn:K.
  { cbn [snd Eth.stdout]. rewrite skipn_length_app.
    cbn. intros [F|[]]. discriminate. }
  destruct (public_key_str E account) as [y|public_key] eqn:P.
  { cbn [snd Eth.stdout]. rewrite skipn_length_app.
    cbn. intros [F|[F|[]]]; discriminate. }
  destruct (to_checksum_address E (address E account)) as [y|checksum_address] eqn:A.
  { cbn [snd Eth.stdout]. rewrite skipn_length_app.
    cbn. intros [F|[F|[F|[]]]]; discriminate. }
  cbn [fst snd Eth.stdout]. rewrite skipn_length_app.
  cbn. intros [F|[F|[F|[F|[]]]]]; try discriminate.
  injection F as <-. exists account, key, public_key.
  repeat split; assumption.
Qed.

End Runs.

(** ** The same on runs of the small library *)

Lemma toy_eth_run :
  Eth.run (generate_eth_key Eth.Toy.lib) Eth.Toy.world =
    (inr Eth.Toy.account, Eth.Toy.after).
Proof. reflexivity. Defined.

Lemma toy_eth_run' :
  Eth.run (generate_eth_key Eth.Toy.lib') Eth.Toy.world' =
    (inl "ValueError", Eth.Toy.after').
Proof. reflexivity. Defined.

Lemma eth_key_lines_witness :
  Eth.run (generate_eth_key Eth.Toy.lib) Eth.Toy.world =
    (inr Eth.Toy.account, Eth.Toy.after) /\
  Eth.stdout Eth.Toy.after =
    ["$ bridge keys generate-eth-key";
     "Generating ETH key...";
     "Private Key: 0xabababababababababababababababababababababababababababababababab";
     "Public Key: 0xabababababababababababababababababababababababababababababababab";
     "Address: 0xABABABABABABABABABABABABABABABABABABABAB"] /\
  exists rest key public_key checksum_address,
    create Eth.Toy.lib (Eth.urandom Eth.Toy.world) = inr (Eth.Toy.account, rest) /\
    key_hex Eth.Toy.lib Eth.Toy.account = inr key /\
    public_key_str Eth.Toy.lib Eth.Toy.account = inr public_key /\
    to_checksum_address Eth.Toy.lib (address Eth.Toy.lib Eth.Toy.account) =
      inr checksum_address /\
    Eth.urandom Eth.Toy.after = rest /\
    Eth.new_lines Eth.Toy.world Eth.Toy.after =
      ["Generating ETH key..."; ("Private Key: " ++ key)%string;
       ("Public Key: " ++ public_key)%string;
       ("Address: " ++ checksum_address)%string] /\
    Eth.new_calls Eth.Toy.world Eth.Toy.after =
      [Call_create; Call_key_hex Eth.Toy.lib Eth.Toy.account;
       Call_public_key_str Eth.Toy.lib Eth.Toy.account;
       Call_to_checksum_address Eth.Toy.lib
         (address Eth.Toy.lib Eth.Toy.account)].
Proof.
  split; [exact toy_eth_run|]. split; [reflexivity|].
  exact (eth_key_lines Eth.Toy.lib Eth.Toy.world Eth.Toy.account Eth.Toy.after
           toy_eth_run).
Defined.

Lemma eth_key_raises_witness :
  Eth.run (generate_eth_key Eth.Toy.lib') Eth.Toy.world' =
    (inl "ValueError", Eth.Toy.after') /\
  Eth.stdout Eth.Toy.after' =
    ["Generating ETH key...";
     "Private Key: 0xabababababababababababababababababababababababababababababababab";
     "Public Key: 0xabababababababababababababababababababababababababababababababab"] /\
  Eth.run (generate_eth_key Eth.Toy.lib) Eth.Toy.dry =
    (inl "NotImplementedError", Eth.Toy.after_dry) /\
  Eth.stdout Eth.Toy.after_dry = ["Generating ETH key..."] /\
  (create Eth.Toy.lib (Eth.urandom Eth.Toy.dry) = inl "NotImplementedError" /\
   Eth.urandom Eth.Toy.after_dry = Eth.urandom Eth.Toy.dry /\
   Eth.new_lines Eth.Toy.dry Eth.Toy.after_dry = ["Generating ETH key..."] /\
   Eth.new_calls Eth.Toy.dry Eth.Toy.after_dry = [Call_create]).
Proof.
  split; [exact toy_eth_run'|]. split; [reflexivity|].
  split; [reflexivity|]. split; [reflexivity|].
  destruct (eth_key_raises Eth.Toy.lib Eth.Toy.dry "NotImplementedError"
              Eth.Toy.after_dry eq_refl) as [H|(a & r & C & _)].
  - exact H.
  - discriminate C.
Defined.

Lemma eth_address_comes_with_key_witness :
  In "Address: 0xABABABABABABABABABABABABABABABABABABABAB"
    (Eth.new_lines Eth.Toy.world
       (snd (Eth.run (generate_eth_key Eth.Toy.lib) Eth.Toy.world))) /\
  exists account key public_key,
    fst (Eth.run (generate_eth_key Eth.Toy.lib) Eth.Toy.world) = inr account /\
    key_hex Eth.Toy.lib account = inr key /\
    to_checksum_address Eth.Toy.lib (address Eth.Toy.lib account) =
      inr "0xABABABABABABABABABABABABABABABABABABABAB" /\
    Eth.new_lines Eth.Toy.world
      (snd (Eth.run (generate_eth_key Eth.Toy.lib) Eth.Toy.world)) =
      Eth.lines_of key public_key "0xABABABABABABABABABABABABABABABABABABABAB".
Proof.
  assert (H : In "Address: 0xABABABABABABABABABABABABABABABABABABABAB"
                (Eth.new_lines Eth.Toy.world
                   (snd (Eth.run (generate_eth_key Eth.Toy.lib) Eth.Toy.world)))).
  { cbn. do 3 right. left. reflexivity. }
  split; [exact H|].
  exact (eth_address_comes_with_key Eth.Toy.lib Eth.Toy.world
           "0xABABABABABABABABABABABABABABABABABABABAB" H).
Defined.

End EthFacts.
